(** * Notification statistics: change detection, aggregation and the publish cycle

    A shallow embedding of [packages/notificator/notificator.go] and the
    properties its specification states about it.

    Conventions of the embedding
    - [int64] values are integers in [Z]; the code only compares, copies and
      zeroes them, so no arithmetic can leave the 64-bit range.
    - A Go slice is a [list]; the [nil] slice and the empty slice are both
      [[]] (the code only takes [len] and ranges over them).
    - A Go map is a [gmap]; reading a missing key yields the zero value.
    - Package-level state ([systemUsers], [lastMessagesStats]) is threaded
      explicitly; every call on a collaborator (database, logger, publisher)
      and every access to the cache is recorded as an [event].
    - The mutexes are not modelled: one call runs at a time. *)

From Stdlib Require Import Ascii.
From stdpp Require Import gmap strings list fin_maps pretty.

Local Open Scope string_scope.
Local Open Scope list_scope.
Local Open Scope Z_scope.

(** ** Data model *)

(** [type notificationRecord struct] *)
Record notificationRecord := NotificationRecord {
  EcosystemID : Z;
  RoleID : Z;
  RecordsCount : Z
}.

#[global] Instance notificationRecord_eq_dec : EqDecision notificationRecord.
Proof. solve_decision. Defined.

(** [type lastMessagesKey struct] *)
Record lastMessagesKey := LastMessagesKey {
  system : Z;
  user : Z
}.

#[global] Instance lastMessagesKey_eq_dec : EqDecision lastMessagesKey.
Proof. solve_decision. Defined.

#[global] Instance lastMessagesKey_countable : Countable lastMessagesKey.
Proof.
  refine (inj_countable' (fun k => (system k, user k))
                         (fun p => LastMessagesKey p.1 p.2) _).
  by intros [].
Defined.

(** [type lastMessages struct]: the lock [mu] is left out. *)
Record lastMessages := LastMessages {
  stats : gmap lastMessagesKey (list notificationRecord)
}.

(** The package-level variables [systemUsers] and [lastMessagesStats].
    [systemUsers] holds pointers to slices; a pointer is only ever
    dereferenced, so the map holds the slice itself. *)
Record globals := Globals {
  systemUsers : gmap Z (list Z);
  lastMessagesStats : lastMessages
}.

(** [func newLastMessages] and [func init] *)
Definition newLastMessages : lastMessages := LastMessages ∅.

Definition init : globals := Globals ∅ newLastMessages.

(** The Go [error] interface: only its being [nil] or not is ever tested. *)
Definition error := string.

(** The [type] field of a log entry (package [consts]). *)
Inductive logType := DBError | JSONMarshallError | IOError | CentrifugoError.

(** A row of the count query: [map[string]string]. *)
Abbreviation row := (gmap string string).

(** What a call can be observed to do. *)
Inductive event :=
| EvQuery (ecosystemID : Z) (users : list Z)     (* model.GetNotificationsCount *)
| EvGet (k : lastMessagesKey)                    (* lastMessages.get *)
| EvSet (k : lastMessagesKey) (newStats : list notificationRecord)
                                                 (* lastMessages.set *)
| EvDelete (k : lastMessagesKey)                 (* lastMessages.delete *)
| EvWrite (user : Z) (payload : string)          (* publisher.Write *)
| EvLog (t : logType).                           (* log ... .Error *)

#[global] Instance logType_eq_dec : EqDecision logType.
Proof. solve_decision. Defined.

#[global] Instance event_eq_dec : EqDecision event.
Proof. solve_decision. Defined.

(** ** The collaborators

    Functions of other packages that the file calls, and the order in which
    the runtime walks a map in a [range] loop. Go leaves that order
    unspecified; [rangeMap] stands for the order the runtime picks, and may
    be any enumeration of the entries, each visited once. The database,
    the serializer and the publisher answer as functions of their arguments:
    they do not change during one call of the package. *)
Class Env := {
  (** [converter.StrToInt64] *)
  StrToInt64 : string → Z;
  (** [model.GetNotificationsCount]: rows and error, as Go returns them *)
  GetNotificationsCount : Z → list Z → list row * option error;
  (** [json.Marshal] on a record list: bytes and error *)
  Marshal : list notificationRecord → string * option error;
  (** [publisher.Write]: [ok] and error *)
  Write : Z → string → bool * option error;
  (** the order of a [range] over a map *)
  rangeMap : ∀ A : Type, gmap Z A → list (Z * A);
  rangeMap_perm : ∀ (A : Type) (m : gmap Z A), rangeMap A m ≡ₚ map_to_list m
}.

Arguments rangeMap {_ _} _.

(** ** The state and event monad *)

Definition M (A : Type) : Type := globals → A * globals * list event.

#[global] Instance M_ret : MRet M := λ A a g, (a, g, []).

#[global] Instance M_bind : MBind M := λ A B f m g,
  let '(a, g1, t1) := m g in
  let '(b, g2, t2) := f a g1 in
  (b, g2, t1 ++ t2).

Definition emit (e : event) : M unit := λ g, (tt, g, [e]).

Definition getGlobals : M globals := λ g, (g, g, []).

Definition putStats (s : gmap lastMessagesKey (list notificationRecord)) : M unit :=
  λ g, (tt, Globals (systemUsers g) (LastMessages s), []).

Definition putUsers (u : gmap Z (list Z)) : M unit :=
  λ g, (tt, Globals u (lastMessagesStats g), []).

(** A [for _, x := range l] loop over a slice. *)
Fixpoint forM_ {A} (l : list A) (body : A → M unit) : M unit :=
  match l with
  | [] => mret tt
  | x :: l' => body x ;; forM_ l' body
  end.

(** The final state and the events of a run. *)
Definition finalOf {A} (r : A * globals * list event) : globals := r.1.2.
Definition eventsOf {A} (r : A * globals * list event) : list event := r.2.
Definition cacheOf {A} (r : A * globals * list event) :
  gmap lastMessagesKey (list notificationRecord) := stats (lastMessagesStats (finalOf r)).

(** ** [lastMessages] methods *)

(** [func (lm *lastMessages) get] *)
Definition lm_get (system user : Z) : M (list notificationRecord * bool) :=
  emit (EvGet (LastMessagesKey system user)) ;;
  g ← getGlobals ;
  match stats (lastMessagesStats g) !! LastMessagesKey system user with
  | Some res => mret (res, true)
  | None => mret ([], false)
  end.

(** [func (lm *lastMessages) set] *)
Definition lm_set (system user : Z) (newStats : list notificationRecord) : M unit :=
  emit (EvSet (LastMessagesKey system user) newStats) ;;
  g ← getGlobals ;
  putStats (<[LastMessagesKey system user := newStats]> (stats (lastMessagesStats g))).

(** [func (lm *lastMessages) delete] *)
Definition lm_delete (system user : Z) : M unit :=
  emit (EvDelete (LastMessagesKey system user)) ;;
  g ← getGlobals ;
  putStats (delete (LastMessagesKey system user) (stats (lastMessagesStats g))).

(** [func AddUser] *)
Definition AddUser (userID systemID : Z) : M unit :=
  g ← getGlobals ;
  match systemUsers g !! systemID with
  | Some val => putUsers (<[systemID := val ++ [userID]]> (systemUsers g))
  | None => putUsers (<[systemID := [userID]]> (systemUsers g))
  end.

(** ** [statsChanged] *)

(** The inner loop over [source] for one record of [new]. [None]: the
    function returned [true] from inside the loop; [Some b]: the loop ran to
    its end with [newRole = b]. *)
Fixpoint scanSource (nRec : notificationRecord) (source : list notificationRecord)
    (newRole : bool) : option bool :=
  match source with
  | [] => Some newRole
  | sRec :: rest =>
      if bool_decide (RoleID sRec = RoleID nRec) then
        if bool_decide (RecordsCount sRec ≠ RecordsCount nRec) then None
        else scanSource nRec rest false
      else scanSource nRec rest newRole
  end.

(** The outer loop over [new]. *)
Fixpoint scanNew (source new : list notificationRecord) : bool :=
  match new with
  | [] => false
  | nRec :: rest =>
      match scanSource nRec source true with
      | None => true
      | Some true => true
      | Some false => scanNew source rest
      end
  end.

(** [func statsChanged] *)
Definition statsChanged (source new : list notificationRecord) : bool :=
  if bool_decide (length source ≠ length new) then true
  else if bool_decide (length new = 0%nat) then false
  else scanNew source new.

(** ** [parseRecipientNotification] *)

(** [r[key]] on a Go map of strings: the empty string when the key is absent. *)
Definition field (r : row) (key : string) : string := default EmptyString (r !! key).

Section Code.
Context `{!Env}.

(** The record built from one row. *)
Definition roleNotifications (systemID : Z) (r : row) : notificationRecord :=
  {| EcosystemID := systemID;
     RoleID := StrToInt64 (field r "role_id");
     RecordsCount := StrToInt64 (field r "cnt") |}.

(** One turn of the loop over the rows. The map of the source holds pointers
    to slices, all of them non-nil; [*nr = append( *nr, ...)] updates the slice
    the map entry points to. *)
Definition parseRow (systemID : Z)
    (recipientNotifications : gmap Z (list notificationRecord)) (r : row) :
    gmap Z (list notificationRecord) :=
  let recipientID := StrToInt64 (field r "recipient_id") in
  match recipientNotifications !! recipientID with
  | Some nr => <[recipientID := nr ++ [roleNotifications systemID r]]> recipientNotifications
  | None => <[recipientID := [roleNotifications systemID r]]> recipientNotifications
  end.

(** [func parseRecipientNotification] *)
Definition parseRecipientNotification (rows : list row) (systemID : Z) :
    gmap Z (list notificationRecord) :=
  fold_left (parseRow systemID) rows ∅.

(** ** Fetching, publishing and the cycles *)

(** [func getEcosystemNotificationStats] *)
Definition getEcosystemNotificationStats (ecosystemID : Z) (users : list Z) :
    M (gmap Z (list notificationRecord) * option error) :=
  emit (EvQuery ecosystemID users) ;;
  let '(result, err) := GetNotificationsCount ecosystemID users in
  match err with
  | Some e => emit (EvLog DBError) ;; mret (∅, Some e)
  | None => mret (parseRecipientNotification result ecosystemID, None)
  end.

(** [func sendUserStats] *)
Definition sendUserStats (user : Z) (stats : list notificationRecord) : M unit :=
  let '(rawStats, err) := Marshal stats in
  (if err is Some _ then emit (EvLog JSONMarshallError) else mret tt) ;;
  emit (EvWrite user rawStats) ;;
  let '(ok, err) := Write user rawStats in
  (if err is Some _ then emit (EvLog IOError) else mret tt) ;;
  (if ok then mret tt else emit (EvLog CentrifugoError)).

(** [oldStats[i].RecordsCount = 0] for every index. The slice shares its
    array with the cache entry only, which is deleted in the next statement. *)
Definition zeroCounts (oldStats : list notificationRecord) : list notificationRecord :=
  (λ r, {| EcosystemID := EcosystemID r; RoleID := RoleID r; RecordsCount := 0 |})
    <$> oldStats.

(** The body of the loop of [UpdateNotifications] for one user. *)
Definition updateUser (ecosystemID : Z)
    (notificationsStats : gmap Z (list notificationRecord)) (user : Z) : M unit :=
  '(oldStats, _) ← lm_get ecosystemID user ;
  let newStats := default [] (notificationsStats !! user) in
  if negb (statsChanged oldStats newStats) then mret tt
  else if bool_decide (length newStats = 0%nat) then
    lm_delete ecosystemID user ;;
    sendUserStats user (zeroCounts oldStats)
  else
    lm_set ecosystemID user newStats ;;
    sendUserStats user newStats.

(** [func UpdateNotifications] *)
Definition UpdateNotifications (ecosystemID : Z) (users : list Z) : M unit :=
  '(notificationsStats, err) ← getEcosystemNotificationStats ecosystemID users ;
  match err with
  | Some _ => mret tt
  | None => forM_ users (updateUser ecosystemID notificationsStats)
  end.

(** The loop of [SendNotifications] over the entries in the order walked. *)
Definition updateAll (entries : list (Z * list Z)) : M unit :=
  forM_ entries (λ '(ecosystemID, users), UpdateNotifications ecosystemID users).

(** [func SendNotifications] *)
Definition SendNotifications : M unit :=
  g ← getGlobals ;
  updateAll (rangeMap (systemUsers g)).

(** The body of the outer loop of [SendNotificationsByRequest]. The pointers
    in [stats] are never nil, so its [continue] on a nil pointer is never
    taken. *)
Definition sendEcosystem (ecosystemID : Z) (users : list Z) : M unit :=
  '(stats, err) ← getEcosystemNotificationStats ecosystemID users ;
  match err with
  | Some _ => mret tt
  | None => forM_ (rangeMap stats) (λ '(user, notifications), sendUserStats user notifications)
  end.

Definition sendAll (entries : list (Z * list Z)) : M unit :=
  forM_ entries (λ '(ecosystemID, users), sendEcosystem ecosystemID users).

(** [func SendNotificationsByRequest] *)
Definition SendNotificationsByRequest (systemUsers : gmap Z (list Z)) : M unit :=
  sendAll (rangeMap systemUsers).

End Code.

(** ** What the diff reacts to *)

(** No record of [old] carries the role of [n]. *)
Definition roleAbsent (old : list notificationRecord) (n : notificationRecord) : Prop :=
  ∀ o, o ∈ old → RoleID o ≠ RoleID n.

(** Some record of [old] carries the role of [n] with another count. *)
Definition countDiffers (old : list notificationRecord) (n : notificationRecord) : Prop :=
  ∃ o, o ∈ old ∧ RoleID o = RoleID n ∧ RecordsCount o ≠ RecordsCount n.

Definition triggers (old : list notificationRecord) (n : notificationRecord) : Prop :=
  roleAbsent old n ∨ countDiffers old n.

(** Records of one role agree on the count. *)
Definition roleCountsAgree (l : list notificationRecord) : Prop :=
  ∀ a b, a ∈ l → b ∈ l → RoleID a = RoleID b → RecordsCount a = RecordsCount b.

(** ** What the aggregator is compared with *)

Section Vocabulary.
Context `{!Env}.

(** The recipient a row is for. *)
Definition recipientOf (r : row) : Z := StrToInt64 (field r "recipient_id").

(** The rows of one recipient, in the order of the input. *)
Definition rowsOf (recipientID : Z) (rows : list row) : list row :=
  filter (λ r, recipientOf r = recipientID) rows.

(** One record per row of the recipient, in the order of the input. *)
Definition recordsOf (rows : list row) (systemID recipientID : Z) :
    list notificationRecord :=
  roleNotifications systemID <$> rowsOf recipientID rows.

(** The result of the query of one ecosystem, aggregated. *)
Definition fetched (ecosystemID : Z) (users : list Z) : gmap Z (list notificationRecord) :=
  parseRecipientNotification (GetNotificationsCount ecosystemID users).1 ecosystemID.

(** The fresh state of a user: the aggregated list, empty when there is none. *)
Definition newStatsOf (ecosystemID : Z) (users : list Z) (user : Z) :
    list notificationRecord :=
  default [] (fetched ecosystemID users !! user).

(** What one call of [sendUserStats] is observed to do. *)
Definition sendTrace (user : Z) (l : list notificationRecord) : list event :=
  eventsOf (sendUserStats user l init).

End Vocabulary.

(** The distinct values of a list, in the order they first occur. *)
Fixpoint firstSeen (l : list Z) : list Z :=
  match l with
  | [] => []
  | x :: l' => x :: filter (λ y, y ≠ x) (firstSeen l')
  end.

(** The aggregation as the specification words it: for each recipient of the
    output, one record per distinct role of its rows, by first occurrence. *)
Definition oneRecordPerRole `{!Env} (rows : list row) (systemID : Z) : Prop :=
  ∀ recipientID recs,
    parseRecipientNotification rows systemID !! recipientID = Some recs →
    RoleID <$> recs = firstSeen (RoleID <$> recordsOf rows systemID recipientID).

(** A map entry extended by further records: what a lookup finds after more
    rows have been folded in. *)
Definition joinRecs (o : option (list notificationRecord)) (l : list notificationRecord) :
    option (list notificationRecord) :=
  match o with
  | Some l0 => Some (l0 ++ l)
  | None => match l with [] => None | _ => Some l end
  end.

(** ** Reading the events of a run *)

(** The cached lists of a state. *)
Definition cache (g : globals) : gmap lastMessagesKey (list notificationRecord) :=
  stats (lastMessagesStats g).

(** No entry of the cache holds an empty list. *)
Definition cacheInv (c : gmap lastMessagesKey (list notificationRecord)) : Prop :=
  ∀ k l, c !! k = Some l → l ≠ [].

(** A [set] or [delete] on the key. *)
Definition writesKey (k : lastMessagesKey) (e : event) : Prop :=
  match e with
  | EvSet k' _ | EvDelete k' => k' = k
  | _ => False
  end.

(** A [publisher.Write] addressed to the user. *)
Definition publishesTo (u : Z) (e : event) : Prop :=
  match e with
  | EvWrite u' _ => u' = u
  | _ => False
  end.



(** Neither writes the cache entry of the user nor publishes to the user. *)
Definition leavesAlone (ecosystemID user : Z) (e : event) : Prop :=
  ¬ writesKey (LastMessagesKey ecosystemID user) e ∧ ¬ publishesTo user e.

(** The state with its cache replaced. *)
Definition withCache (g : globals) (c : gmap lastMessagesKey (list notificationRecord)) :
    globals :=
  Globals (systemUsers g) (LastMessages c).

(** ** A concrete environment

    Used to run the functions on the examples of the specification. *)

(** The value of a decimal digit. *)
Definition digitOf (c : ascii) : option Z :=
  let n := Z.of_N (N_of_ascii c) in
  if (48 <=? n) && (n <=? 57) then Some (n - 48) else None.

Fixpoint parseDigits (acc : Z) (s : string) : option Z :=
  match s with
  | EmptyString => Some acc
  | String c s' => d ← digitOf c; parseDigits (10 * acc + d) s'
  end.

(** Modelled from the spec: [converter.StrToInt64] is not among the sources;
    the specification has the fields hold an integer in text form. Decimal
    digits with an optional sign; anything else reads as 0. *)
Definition decimalStrToInt64 (s : string) : Z :=
  match s with
  | EmptyString => 0
  | String "-"%char EmptyString => 0
  | String "-"%char s' => default 0 (Z.opp <$> parseDigits 0 s')
  | _ => default 0 (parseDigits 0 s)
  end.

(** The wire format of the specification: a JSON array of objects with the
    keys [ecosystem], [role_id] and [count]. *)
Definition quoted (s : string) : string :=
  String "034"%char s +:+ String "034"%char EmptyString.

Definition jsonRecord (r : notificationRecord) : string :=
  "{" +:+ quoted "ecosystem" +:+ ":" +:+ pretty (EcosystemID r) +:+ ","
      +:+ quoted "role_id" +:+ ":" +:+ pretty (RoleID r) +:+ ","
      +:+ quoted "count" +:+ ":" +:+ pretty (RecordsCount r) +:+ "}".

Definition jsonMarshal (l : list notificationRecord) : string * option error :=
  ("[" +:+ String.concat "," (jsonRecord <$> l) +:+ "]", None).

Definition mkRow (recipient role cnt : string) : row :=
  {[ "recipient_id" := recipient; "role_id" := role; "cnt" := cnt ]}.

(** The rows of the aggregation example of the specification. *)
Definition exampleRows : list row :=
  [mkRow "1" "1" "2"; mkRow "1" "2" "3"; mkRow "2" "1" "1"].

(** Ecosystem 1 answers with [exampleRows], ecosystem 2 with no row, and the
    query of any other ecosystem fails. *)
Definition exampleQuery (ecosystemID : Z) (users : list Z) : list row * option error :=
  if bool_decide (ecosystemID = 1) then (exampleRows, None)
  else if bool_decide (ecosystemID = 2) then ([], None)
  else ([], Some "connection refused").

Definition exampleEnv : Env := {|
  StrToInt64 := decimalStrToInt64;
  GetNotificationsCount := exampleQuery;
  Marshal := jsonMarshal;
  Write := λ _ _, (true, None);
  rangeMap := λ A, map_to_list;
  rangeMap_perm := λ A m, reflexivity (map_to_list m)
|}.

(** The same environment with a serializer that fails, returning no bytes. *)
Definition failingMarshalEnv : Env := {|
  StrToInt64 := decimalStrToInt64;
  GetNotificationsCount := exampleQuery;
  Marshal := λ _, (EmptyString, Some "json: unsupported value");
  Write := λ _ _, (true, None);
  rangeMap := λ A, map_to_list;
  rangeMap_perm := λ A m, reflexivity (map_to_list m)
|}.

(** A state with three ecosystems on the roster, whose cache holds
    [[{role 1, count 3}]] for user 5 of ecosystem 2 and [[{role 1, count 1}]]
    for user 2 of ecosystem 1. *)
Definition cachedState : globals :=
  Globals {[ 1 := [1; 2; 3]; 2 := [5]; 3 := [9] ]}
          (LastMessages {[ LastMessagesKey 2 5 := [NotificationRecord 2 1 3];
                           LastMessagesKey 1 2 := [NotificationRecord 1 1 1] ]}).

(** ** Further readings of a run *)

(** What a call returns. *)
Definition resultOf {A} (r : A * globals * list event) : A := r.1.1.

(** The calls of [publisher.Write] among the events, in order. *)
Definition publishesOf (t : list event) : list (Z * string) :=
  omap (λ e, match e with EvWrite u p => Some (u, p) | _ => None end) t.

(** The calls of [model.GetNotificationsCount] among the events, in order. *)
Definition queriesOf (t : list event) : list (Z * list Z) :=
  omap (λ e, match e with EvQuery b us => Some (b, us) | _ => None end) t.

(** The keys of the cache that the events read or write, in order. *)
Definition keysOf (t : list event) : list lastMessagesKey :=
  omap (λ e, match e with
             | EvGet k | EvSet k _ | EvDelete k => Some k
             | _ => None
             end) t.

(** The number of records an aggregated map holds, over all recipients. *)
Definition recordsHeld (m : gmap Z (list notificationRecord)) : nat :=
  sum_list_with (λ p, length p.2) (map_to_list m).

(** An event an update of [users] in [ecosystemID] may emit after its query:
    a cache access on the key of a listed user, a publish to a listed user,
    or a log entry. *)
Definition withinUsers (ecosystemID : Z) (users : list Z) (e : event) : Prop :=
  match e with
  | EvGet k | EvSet k _ | EvDelete k => system k = ecosystemID ∧ user k ∈ users
  | EvWrite u _ => u ∈ users
  | EvLog _ => True
  | EvQuery _ _ => False
  end.

(** The environment with another serializer and another publisher. *)
Definition withDelivery (E : Env)
    (marshal : list notificationRecord → string * option error)
    (write : Z → string → bool * option error) : Env := {|
  StrToInt64 := @StrToInt64 E;
  GetNotificationsCount := @GetNotificationsCount E;
  Marshal := marshal;
  Write := write;
  rangeMap := @rangeMap E;
  rangeMap_perm := @rangeMap_perm E
|}.

(** An event that neither deletes the entry of the key nor hands the user
    another payload than the given one. *)
Definition settled (k : lastMessagesKey) (u : Z) (payload : string) (e : event) : Prop :=
  match e with
  | EvDelete k' => k' ≠ k
  | EvWrite u' p => u' = u → p = payload
  | _ => True
  end.

(** What [statsChanged] looks at in a record. *)
Definition roleCount (r : notificationRecord) : Z * Z := (RoleID r, RecordsCount r).

(** Unfolds the monad's operations in the goal. *)
Ltac run_M :=
  unfold mbind, M_bind, mret, M_ret, emit, getGlobals, putStats, putUsers; simpl.

(** ** Section: statsChanged *)

Section StatsChanged.
Implicit Types (old new source : list notificationRecord) (n nRec : notificationRecord).

Lemma scanSource_None nRec source b :
  scanSource nRec source b = None ↔ countDiffers source nRec.
Proof.
  revert b. induction source as [|s rest IH]; intros b; simpl.
  - split; [done|]. intros (o & Ho & _). by apply elem_of_nil in Ho.
  - unfold countDiffers. setoid_rewrite elem_of_cons.
    repeat case_bool_decide.
    + split; [|done]. intros _. exists s. auto.
    + rewrite IH. split.
      * intros (o & Ho & Hr & Hc). exists o. auto.
      * intros (o & [->|Ho] & Hr & Hc); [congruence|]. exists o. auto.
    + rewrite IH. split.
      * intros (o & Ho & Hr & Hc). exists o. auto.
      * intros (o & [->|Ho] & Hr & Hc); [congruence|]. exists o. auto.
Qed.

Lemma scanSource_Some nRec source b b' :
  scanSource nRec source b = Some b' →
  (b' = true ↔ b = true ∧ roleAbsent source nRec).
Proof.
  revert b. induction source as [|s rest IH]; intros b; simpl.
  - intros [= <-]. split; [|tauto]. intros ->. split; [done|].
    intros o Ho. by apply elem_of_nil in Ho.
  - unfold roleAbsent. setoid_rewrite elem_of_cons.
    repeat case_bool_decide; try done.
    + intros H'. apply IH in H'. rewrite H'. split; [intros [? _]; done|].
      intros [_ Ha]. exfalso. by apply (Ha s); [left|].
    + intros H'. apply IH in H'. rewrite H'. unfold roleAbsent. split.
      * intros [? Ha]. split; [done|]. intros o [->|Ho]; auto.
      * intros [? Ha]. split; [done|]. intros o Ho. apply Ha. auto.
Qed.

Lemma scanNew_true source new :
  scanNew source new = true ↔ ∃ n, n ∈ new ∧ triggers source n.
Proof.
  induction new as [|n rest IH]; simpl.
  - split; [done|]. intros (n & Hn & _). by apply elem_of_nil in Hn.
  - setoid_rewrite elem_of_cons.
    destruct (scanSource n source true) as [[|]|] eqn:E.
    + split; [|done]. intros _. exists n. split; [by left|]. left.
      by apply (scanSource_Some _ _ _ _ E).
    + rewrite IH. split.
      * intros (m & Hm & Ht). exists m. auto.
      * intros (m & [->|Hm] & Ht); [|by exists m].
        destruct Ht as [Ha|Hc].
        -- assert (false = true) as Hf; [|done].
           apply (scanSource_Some _ _ _ _ E). done.
        -- apply scanSource_None with (b := true) in Hc. congruence.
    + split; [|done]. intros _. exists n. split; [by left|]. right.
      by apply (scanSource_None _ _ true).
Qed.

Lemma statsChanged_true old new :
  statsChanged old new = true ↔
  length old ≠ length new ∨ ∃ n, n ∈ new ∧ triggers old n.
Proof.
  unfold statsChanged. repeat case_bool_decide.
  - tauto.
  - split; [done|]. intros [?|(n & Hn & _)]; [done|].
    destruct new; [by apply elem_of_nil in Hn | done].
  - rewrite scanNew_true. split; [auto|]. intros [?|?]; done.
Qed.

Lemma statsChanged_false old new :
  statsChanged old new = false ↔
  length old = length new ∧ ∀ n, n ∈ new → ¬ triggers old n.
Proof.
  rewrite <-not_true_iff_false, statsChanged_true. split.
  - intros Hn. split.
    + destruct (decide (length old = length new)); [done|]. exfalso. auto.
    + intros n Hin Ht. apply Hn. right. by exists n.
  - intros [Hl Hn] [?|(n & Hin & Ht)]; [done|]. by apply (Hn n).
Qed.

(** C1: [statsChanged old new] is [true] when the lengths differ; otherwise
    [false] when [new] is empty; otherwise [true] when some record of [new]
    has a role found nowhere in [old], or found in [old] with another count;
    and [false] when no record of [new] does. *)
Theorem statsChanged_spec old new :
  (length old ≠ length new → statsChanged old new = true) ∧
  (length old = length new → length new = 0%nat → statsChanged old new = false) ∧
  (length old = length new → length new ≠ 0%nat →
     (∃ n, n ∈ new ∧ (roleAbsent old n ∨ countDiffers old n)) →
     statsChanged old new = true) ∧
  (length old = length new →
     (∀ n, n ∈ new → ¬ (roleAbsent old n ∨ countDiffers old n)) →
     statsChanged old new = false).
Proof.
  split_and!.
  - intros Hl. apply statsChanged_true. by left.
  - intros Hl H0. apply statsChanged_false. split; [done|].
    intros n Hn. destruct new; [by apply elem_of_nil in Hn | done].
  - intros _ _ Hex. apply statsChanged_true. by right.
  - intros Hl Hall. apply statsChanged_false. done.
Qed.

End StatsChanged.

(** ** Section: statsChanged on permuted lists *)

Section Permuted.
Implicit Types (old new : list notificationRecord).

Lemma roleCountsAgree_no_countDiffers old :
  roleCountsAgree old ↔ ∀ n, n ∈ old → ¬ countDiffers old n.
Proof.
  split.
  - intros Hag n Hn (o & Ho & Hr & Hc). apply Hc. by apply Hag.
  - intros Hno a b Ha Hb Hr.
    destruct (decide (RecordsCount a = RecordsCount b)) as [|Hc]; [done|].
    exfalso. apply (Hno b Hb). by exists a.
Qed.

(** C2 as stated fails: a list in which one role occurs with two counts is
    reported as changed against itself. *)
Lemma statsChanged_permutation_counterexample :
  ¬ (∀ old new, old ≡ₚ new → statsChanged old new = false).
Proof.
  intros H.
  specialize (H [NotificationRecord 1 1 2; NotificationRecord 1 1 3]
                [NotificationRecord 1 1 2; NotificationRecord 1 1 3]
                (reflexivity _)).
  vm_compute in H. discriminate H.
Qed.

(** C2, amended: for lists that are permutations of one another,
    [statsChanged old new] is [false] exactly when the records of [old] that
    share a role share the count; so it is [false] whenever no role occurs
    with two different counts, and [statsChanged x x] is [false] for such [x]. *)
Theorem statsChanged_permutation old new :
  old ≡ₚ new →
  (statsChanged old new = false ↔ roleCountsAgree old).
Proof.
  intros Hp. rewrite statsChanged_false, roleCountsAgree_no_countDiffers.
  split.
  - intros [_ Hn] n Hin Hc. apply (Hn n); [by rewrite <-Hp|]. by right.
  - intros Hno. split; [by rewrite Hp|].
    intros n Hin [Ha|Hc].
    + apply (Ha n); [by rewrite Hp|done].
    + apply (Hno n); [by rewrite Hp|done].
Qed.

Lemma statsChanged_permutation_witness :
  statsChanged [NotificationRecord 1 1 5; NotificationRecord 1 2 1]
               [NotificationRecord 1 2 1; NotificationRecord 1 1 5] = false.
Proof.
  apply (statsChanged_permutation _ _ (perm_swap _ _ [])).
  intros a b Ha Hb.
  apply elem_of_cons in Ha as [->|Ha]; [|apply list_elem_of_singleton in Ha as ->];
  (apply elem_of_cons in Hb as [->|Hb]; [|apply list_elem_of_singleton in Hb as ->]);
  simpl; intros; done.
Defined.

End Permuted.

(** ** Section: the aggregator *)

Section Aggregator.
Context `{!Env}.

Lemma firstSeen_NoDup l : NoDup l → firstSeen l = l.
Proof.
  induction 1 as [|x l Hx Hl IH]; simpl; [done|].
  rewrite IH. f_equal. clear IH Hl.
  induction l as [|y l IH]; [done|].
  apply not_elem_of_cons in Hx as [Hxy Hx].
  rewrite filter_cons_True by done. by rewrite IH.
Qed.

Lemma recordsOf_cons r rows systemID recipientID :
  recordsOf (r :: rows) systemID recipientID =
  if decide (recipientOf r = recipientID)
  then roleNotifications systemID r :: recordsOf rows systemID recipientID
  else recordsOf rows systemID recipientID.
Proof.
  unfold recordsOf, rowsOf. rewrite filter_cons. by case_decide.
Qed.

Lemma parseRow_lookup systemID m r recipientID :
  parseRow systemID m r !! recipientID =
  if decide (recipientOf r = recipientID)
  then joinRecs (m !! recipientID) [roleNotifications systemID r]
  else m !! recipientID.
Proof.
  unfold parseRow. fold (recipientOf r). case_decide as Hr.
  - subst. destruct (m !! recipientOf r) eqn:E; simpl; by rewrite lookup_insert_eq.
  - destruct (m !! recipientOf r); by rewrite lookup_insert_ne.
Qed.

Lemma parse_fold rows systemID m recipientID :
  fold_left (parseRow systemID) rows m !! recipientID =
  joinRecs (m !! recipientID) (recordsOf rows systemID recipientID).
Proof.
  revert m. induction rows as [|r rows IH]; intros m; simpl.
  - destruct (m !! recipientID); simpl; [by rewrite app_nil_r|done].
  - rewrite IH, parseRow_lookup, recordsOf_cons. case_decide; [|done].
    destruct (m !! recipientID); simpl; [by rewrite <-app_assoc|done].
Qed.

Lemma parse_lookup rows systemID recipientID :
  parseRecipientNotification rows systemID !! recipientID =
  match recordsOf rows systemID recipientID with
  | [] => None
  | recs => Some recs
  end.
Proof.
  unfold parseRecipientNotification. rewrite parse_fold, lookup_empty. simpl.
  by destruct (recordsOf rows systemID recipientID).
Qed.

Lemma parse_lookup_Some rows systemID recipientID recs :
  parseRecipientNotification rows systemID !! recipientID = Some recs →
  recs = recordsOf rows systemID recipientID ∧ recs ≠ [].
Proof.
  rewrite parse_lookup. destruct (recordsOf rows systemID recipientID); [done|].
  by intros [= <-].
Qed.

(** C3, amended: the output maps each recipient that has a row to one record
    per row of that recipient (built from the row's role and count and the
    ecosystem), in the order of the rows, and has no entry for a recipient
    without rows; when the rows of a recipient carry pairwise distinct roles,
    that is one record per distinct role, in the order first encountered. *)
Theorem parseRecipientNotification_spec rows systemID recipientID :
  parseRecipientNotification rows systemID !! recipientID =
    match recordsOf rows systemID recipientID with
    | [] => None
    | recs => Some recs
    end ∧
  (NoDup (RoleID <$> recordsOf rows systemID recipientID) →
   ∀ recs, parseRecipientNotification rows systemID !! recipientID = Some recs →
     RoleID <$> recs = firstSeen (RoleID <$> recordsOf rows systemID recipientID)).
Proof.
  split; [apply parse_lookup|].
  intros Hnd recs Hrecs. apply parse_lookup_Some in Hrecs as [-> _].
  by rewrite firstSeen_NoDup.
Qed.

End Aggregator.

(** C3 as stated fails: two rows of one recipient with the same role give two
    records of that role. *)
Lemma oneRecordPerRole_counterexample :
  ¬ @oneRecordPerRole exampleEnv [mkRow "1" "1" "2"; mkRow "1" "1" "3"] 7.
Proof.
  intros H.
  specialize (H 1 [NotificationRecord 7 1 2; NotificationRecord 7 1 3]).
  vm_compute in H. specialize (H eq_refl). discriminate H.
Qed.

(** The aggregation example of the specification. *)
Example parse_exampleRows :
  map_to_list (@parseRecipientNotification exampleEnv exampleRows 1) ≡ₚ
  [(1, [NotificationRecord 1 1 2; NotificationRecord 1 2 3]);
   (2, [NotificationRecord 1 1 1])].
Proof. vm_compute. apply perm_swap. Qed.

(** ** Section: running the monad *)

Section Running.
Context `{!Env}.

Lemma bind_run {A B} (m : M A) (f : A → M B) g :
  (m ≫= f) g = (((f (m g).1.1 (m g).1.2).1.1, (f (m g).1.1 (m g).1.2).1.2),
                (m g).2 ++ (f (m g).1.1 (m g).1.2).2).
Proof.
  unfold mbind, M_bind. destruct (m g) as [[a g1] t1]. simpl.
  by destruct (f a g1) as [[b g2] t2].
Qed.

Lemma forM__nil {A} (body : A → M unit) g : forM_ [] body g = (tt, g, []).
Proof. done. Qed.

Lemma forM__cons {A} (x : A) l (body : A → M unit) g :
  forM_ (x :: l) body g =
  (tt, finalOf (forM_ l body (finalOf (body x g))),
   eventsOf (body x g) ++ eventsOf (forM_ l body (finalOf (body x g)))).
Proof.
  simpl. rewrite bind_run. unfold finalOf, eventsOf.
  by destruct (forM_ l body (body x g).1.2) as [[[] ?] ?].
Qed.

Lemma forM__app {A} (l1 l2 : list A) (body : A → M unit) g :
  forM_ (l1 ++ l2) body g =
  (tt, finalOf (forM_ l2 body (finalOf (forM_ l1 body g))),
   eventsOf (forM_ l1 body g) ++ eventsOf (forM_ l2 body (finalOf (forM_ l1 body g)))).
Proof.
  revert g. induction l1 as [|x l1 IH]; intros g.
  - unfold finalOf, eventsOf. simpl. by destruct (forM_ l2 body g) as [[[] ?] ?].
  - rewrite <-app_comm_cons, !forM__cons, IH. unfold finalOf, eventsOf. simpl.
    by rewrite app_assoc.
Qed.

(** A loop keeps what each turn keeps, and emits what the turns emit. *)
Lemma forM__inv {A} (I : globals → Prop) (Q : event → Prop) (l : list A)
    (body : A → M unit) :
  (∀ x g, x ∈ l → I g → I (finalOf (body x g)) ∧ Forall Q (eventsOf (body x g))) →
  ∀ g, I g → I (finalOf (forM_ l body g)) ∧ Forall Q (eventsOf (forM_ l body g)).
Proof.
  induction l as [|x l IH]; intros Hbody g Hg.
  - by split; [|constructor].
  - rewrite forM__cons. unfold finalOf at 1, eventsOf at 1. simpl.
    destruct (Hbody x g) as [H1 H2]; [by left|done|].
    destruct (IH (λ y g' Hy, Hbody y g' (list_elem_of_further _ _ _ Hy)) _ H1) as [H3 H4].
    split; [done|]. by apply Forall_app.
Qed.

Lemma sendUserStats_run user l g :
  sendUserStats user l g = (tt, g, sendTrace user l).
Proof.
  unfold sendTrace, sendUserStats.
  destruct (Marshal l) as [rawStats [e|]];
    destruct (Write user rawStats) as [[|] [e'|]]; reflexivity.
Qed.

(** The serialized bytes are handed to the publisher whether or not the
    serializer reported an error. *)
Lemma sendTrace_writes user l :
  EvWrite user (Marshal l).1 ∈ sendTrace user l.
Proof.
  unfold sendTrace, sendUserStats.
  destruct (Marshal l) as [rawStats [e|]];
    destruct (Write user rawStats) as [[|] [e'|]]; unfold eventsOf; run_M;
    set_solver.
Qed.

Lemma sendTrace_events user l e :
  e ∈ sendTrace user l →
  e = EvWrite user (Marshal l).1 ∨ ∃ t, e = EvLog t.
Proof.
  unfold sendTrace, sendUserStats.
  destruct (Marshal l) as [rawStats [err|]];
    destruct (Write user rawStats) as [[|] [e'|]]; unfold eventsOf; run_M;
    rewrite ?elem_of_cons, elem_of_nil; intuition (subst; eauto).
Qed.

Lemma updateUser_run ecosystemID ns user g :
  updateUser ecosystemID ns user g =
  let k := LastMessagesKey ecosystemID user in
  let oldStats := default [] (cache g !! k) in
  let newStats := default [] (ns !! user) in
  if statsChanged oldStats newStats then
    if bool_decide (length newStats = 0%nat) then
      (tt, withCache g (delete k (cache g)),
       EvGet k :: EvDelete k :: sendTrace user (zeroCounts oldStats))
    else
      (tt, withCache g (<[k := newStats]> (cache g)),
       EvGet k :: EvSet k newStats :: sendTrace user newStats)
  else (tt, g, [EvGet k]).
Proof.
  unfold updateUser, lm_get, lm_set, lm_delete, cache. run_M.
  destruct (stats (lastMessagesStats g) !! _) as [oldStats|]; simpl;
    destruct (statsChanged _ _); simpl; try done;
    case_bool_decide; rewrite sendUserStats_run; done.
Qed.

Lemma getEcosystemNotificationStats_run ecosystemID users g :
  getEcosystemNotificationStats ecosystemID users g =
  match (GetNotificationsCount ecosystemID users).2 with
  | Some e => ((∅, Some e), g, [EvQuery ecosystemID users; EvLog DBError])
  | None => ((fetched ecosystemID users, None), g, [EvQuery ecosystemID users])
  end.
Proof.
  unfold getEcosystemNotificationStats, fetched.
  by destruct (GetNotificationsCount ecosystemID users) as [result [e|]].
Qed.

Lemma UpdateNotifications_failed ecosystemID users g e :
  (GetNotificationsCount ecosystemID users).2 = Some e →
  UpdateNotifications ecosystemID users g =
  (tt, g, [EvQuery ecosystemID users; EvLog DBError]).
Proof.
  intros He. unfold UpdateNotifications.
  rewrite bind_run, getEcosystemNotificationStats_run, He. done.
Qed.

Lemma UpdateNotifications_fetched ecosystemID users g :
  (GetNotificationsCount ecosystemID users).2 = None →
  UpdateNotifications ecosystemID users g =
  (tt, finalOf (forM_ users (updateUser ecosystemID (fetched ecosystemID users)) g),
   EvQuery ecosystemID users ::
   eventsOf (forM_ users (updateUser ecosystemID (fetched ecosystemID users)) g)).
Proof.
  intros He. unfold UpdateNotifications.
  rewrite bind_run, getEcosystemNotificationStats_run, He. simpl.
  unfold finalOf, eventsOf.
  by destruct (forM_ users _ g) as [[[] ?] ?].
Qed.

Lemma sendEcosystem_run ecosystemID users g :
  sendEcosystem ecosystemID users g =
  match (GetNotificationsCount ecosystemID users).2 with
  | Some e => (tt, g, [EvQuery ecosystemID users; EvLog DBError])
  | None =>
      (tt, g,
       EvQuery ecosystemID users ::
       mjoin ((λ '(user, notifications), sendTrace user notifications)
                 <$> rangeMap (fetched ecosystemID users)))
  end.
Proof.
  unfold sendEcosystem.
  rewrite bind_run, getEcosystemNotificationStats_run.
  destruct (GetNotificationsCount ecosystemID users).2 as [e|]; simpl; [done|].
  generalize (rangeMap (fetched ecosystemID users)). intros l.
  assert (forM_ l (λ '(user, notifications), sendUserStats user notifications) g =
          (tt, g, mjoin ((λ '(user, notifications), sendTrace user notifications) <$> l)))
    as ->; [|done].
  induction l as [|[u n] l IH]; [done|].
  rewrite forM__cons, sendUserStats_run. unfold finalOf, eventsOf. simpl.
  by rewrite IH.
Qed.


End Running.

(** ** Section: the per-ecosystem update *)

Section Update.
Context `{!Env}.
Implicit Types (g : globals) (ns : gmap Z (list notificationRecord)).

Lemma cache_withCache g c : cache (withCache g c) = c.
Proof. done. Qed.

Lemma sendTrace_leavesAlone ecosystemID v user l :
  v ≠ user → Forall (leavesAlone ecosystemID user) (sendTrace v l).
Proof.
  intros Hv. apply Forall_forall. intros e He.
  apply sendTrace_events in He as [->|[t ->]]; split; simpl; auto.
Qed.

Lemma updateUser_unchanged ecosystemID ns user g :
  statsChanged (default [] (cache g !! LastMessagesKey ecosystemID user))
               (default [] (ns !! user)) = false →
  updateUser ecosystemID ns user g = (tt, g, [EvGet (LastMessagesKey ecosystemID user)]).
Proof. intros Hs. rewrite updateUser_run. simpl. by rewrite Hs. Qed.

Lemma updateUser_frame ecosystemID ns v user g :
  v ≠ user →
  cache (finalOf (updateUser ecosystemID ns v g)) !! LastMessagesKey ecosystemID user =
    cache g !! LastMessagesKey ecosystemID user ∧
  Forall (leavesAlone ecosystemID user) (eventsOf (updateUser ecosystemID ns v g)).
Proof.
  intros Hv. rewrite updateUser_run. simpl.
  assert (LastMessagesKey ecosystemID v ≠ LastMessagesKey ecosystemID user) as Hk
    by congruence.
  destruct (statsChanged _ _); [case_bool_decide|]; unfold finalOf, eventsOf; simpl;
    rewrite ?cache_withCache.
  - rewrite lookup_delete_ne by done. split; [done|].
    repeat (constructor; [split; simpl; congruence|]).
    by apply sendTrace_leavesAlone.
  - rewrite lookup_insert_ne by done. split; [done|].
    repeat (constructor; [split; simpl; congruence|]).
    by apply sendTrace_leavesAlone.
  - split; [done|]. repeat constructor; simpl; auto.
Qed.

(** A turn of the loop keeps the cache free of empty lists and only stores
    non-empty lists. *)
Lemma updateUser_cacheInv ecosystemID ns user g :
  cacheInv (cache g) →
  cacheInv (cache (finalOf (updateUser ecosystemID ns user g))) ∧
  Forall (λ e, ∀ k l, e = EvSet k l → l ≠ [])
         (eventsOf (updateUser ecosystemID ns user g)).
Proof.
  intros Hinv. rewrite updateUser_run. simpl.
  destruct (statsChanged _ _); [case_bool_decide as Hlen|]; unfold finalOf, eventsOf; simpl;
    rewrite ?cache_withCache.
  - split.
    + intros k l Hl. apply lookup_delete_Some in Hl as [_ Hl]. by apply (Hinv k).
    + repeat (constructor; [intros ?? [=]|]).
      apply Forall_forall. intros e He k l ->.
      apply sendTrace_events in He as [[=]|[t [=]]].
  - split.
    + intros k l Hl. apply lookup_insert_Some in Hl as [[_ <-]|[_ Hl]].
      * intros Hnil. by rewrite Hnil in Hlen.
      * by apply (Hinv k).
    + constructor; [intros ?? [=]|].
      constructor; [intros ?? [= _ <-]; intros Hnil; by rewrite Hnil in Hlen|].
      apply Forall_forall. intros e He k l ->.
      apply sendTrace_events in He as [[=]|[t [=]]].
  - split; [done|]. repeat constructor. intros ?? [=].
Qed.

(** Once the entry of a user with no fresh state is gone, it stays gone. *)
Lemma updateUser_keeps_absent ecosystemID ns v user g :
  default [] (ns !! user) = [] →
  cache g !! LastMessagesKey ecosystemID user = None →
  cache (finalOf (updateUser ecosystemID ns v g)) !! LastMessagesKey ecosystemID user = None ∧
  Forall (leavesAlone ecosystemID user) (eventsOf (updateUser ecosystemID ns v g)).
Proof.
  intros Hnew Hold. destruct (decide (v = user)) as [->|Hv].
  - rewrite updateUser_unchanged by (by rewrite Hold, Hnew).
    split; [done|]. repeat constructor; simpl; auto.
  - destruct (updateUser_frame ecosystemID ns v user g Hv) as [-> ?]. done.
Qed.

(** What the turn of a user does whose cached list is non-empty and whose
    fresh state is empty. *)
Lemma updateUser_allClear ecosystemID ns user old g :
  default [] (ns !! user) = [] →
  cache g !! LastMessagesKey ecosystemID user = Some old → old ≠ [] →
  updateUser ecosystemID ns user g =
  (tt, withCache g (delete (LastMessagesKey ecosystemID user) (cache g)),
   EvGet (LastMessagesKey ecosystemID user) ::
   EvDelete (LastMessagesKey ecosystemID user) :: sendTrace user (zeroCounts old)).
Proof.
  intros Hnew Hold Hne. rewrite updateUser_run. simpl. rewrite Hold, Hnew. simpl.
  replace (statsChanged old []) with true; [done|].
  symmetry. apply statsChanged_true. left. by destruct old.
Qed.

Lemma zeroCounts_roles old : RoleID <$> zeroCounts old = RoleID <$> old.
Proof. unfold zeroCounts. rewrite <-list_fmap_compose. done. Qed.

Lemma zeroCounts_ecosystems old : EcosystemID <$> zeroCounts old = EcosystemID <$> old.
Proof. unfold zeroCounts. rewrite <-list_fmap_compose. done. Qed.

Lemma zeroCounts_counts old : Forall (λ r, RecordsCount r = 0) (zeroCounts old).
Proof. unfold zeroCounts. apply Forall_fmap, Forall_forall. done. Qed.

(** C5: an update of one ecosystem keeps the cache free of empty lists: from
    a cache without empty entries it ends in one; every [set] it makes stores
    a non-empty list; and a listed user whose fresh state is empty has no
    entry afterwards. *)
Theorem UpdateNotifications_cacheInv ecosystemID users g :
  cacheInv (cache g) →
  cacheInv (cacheOf (UpdateNotifications ecosystemID users g)) ∧
  (∀ k l, EvSet k l ∈ eventsOf (UpdateNotifications ecosystemID users g) → l ≠ []) ∧
  (∀ user, user ∈ users →
     (GetNotificationsCount ecosystemID users).2 = None →
     newStatsOf ecosystemID users user = [] →
     cacheOf (UpdateNotifications ecosystemID users g)
       !! LastMessagesKey ecosystemID user = None).
Proof.
  intros Hinv.
  destruct (GetNotificationsCount ecosystemID users).2 as [e|] eqn:Hq.
  { rewrite (UpdateNotifications_failed _ _ _ e Hq). unfold cacheOf, finalOf, eventsOf.
    simpl. split_and!; [done| |done].
    intros k l Hin. rewrite !elem_of_cons, elem_of_nil in Hin. by destruct Hin as [|[|]]. }
  rewrite (UpdateNotifications_fetched _ _ _ Hq). unfold cacheOf, finalOf at 1 3 5, eventsOf at 1.
  simpl. set (ns := fetched ecosystemID users).
  destruct (forM__inv (λ g', cacheInv (cache g')) (λ e, ∀ k l, e = EvSet k l → l ≠ [])
              users (updateUser ecosystemID ns)
              (λ x g' _ Hg', updateUser_cacheInv ecosystemID ns x g' Hg') g Hinv)
    as [Hfin Hev].
  split_and!; [done| |].
  - intros k l Hin. apply elem_of_cons in Hin as [[=]|Hin].
    rewrite Forall_forall in Hev. by apply (Hev _ Hin k l).
  - intros user Hin _ Hnew. clear Hfin Hev.
    apply list_elem_of_split in Hin as (l1 & l2 & ->).
    rewrite forM__app, forM__cons. unfold finalOf at 1 2. simpl.
    set (g1 := finalOf (forM_ l1 (updateUser ecosystemID ns) g)).
    assert (cacheInv (cache g1)) as Hinv1.
    { apply (forM__inv (λ g', cacheInv (cache g')) (λ e, ∀ k l, e = EvSet k l → l ≠ [])
               l1 (updateUser ecosystemID ns)
               (λ x g' _ Hg', updateUser_cacheInv ecosystemID ns x g' Hg') g Hinv). }
    assert (cache (finalOf (updateUser ecosystemID ns user g1))
              !! LastMessagesKey ecosystemID user = None) as Hgone.
    { destruct (cache g1 !! LastMessagesKey ecosystemID user) as [old|] eqn:Hold.
      - rewrite (updateUser_allClear _ _ _ old) by eauto.
        unfold finalOf. simpl. rewrite cache_withCache. apply lookup_delete_eq.
      - by apply updateUser_keeps_absent. }
    apply (forM__inv (λ g', cache g' !! LastMessagesKey ecosystemID user = None)
             (leavesAlone ecosystemID user) l2 (updateUser ecosystemID ns)
             (λ x g' _ Hg', updateUser_keeps_absent ecosystemID ns x user g' Hnew Hg')
             _ Hgone).
Qed.

(** C6: when the diff reports the fresh state of a user unchanged against the
    cached one, the update of the ecosystem makes no [set] and no [delete] on
    the user's entry and no publish to the user, and the entry is as before. *)
Theorem UpdateNotifications_unchanged_user ecosystemID users user g :
  statsChanged (default [] (cache g !! LastMessagesKey ecosystemID user))
               (newStatsOf ecosystemID users user) = false →
  cacheOf (UpdateNotifications ecosystemID users g) !! LastMessagesKey ecosystemID user =
    cache g !! LastMessagesKey ecosystemID user ∧
  Forall (λ e, ¬ writesKey (LastMessagesKey ecosystemID user) e ∧ ¬ publishesTo user e)
         (eventsOf (UpdateNotifications ecosystemID users g)).
Proof.
  intros Hsame.
  destruct (GetNotificationsCount ecosystemID users).2 as [e|] eqn:Hq.
  { rewrite (UpdateNotifications_failed _ _ _ e Hq). unfold cacheOf, finalOf, eventsOf.
    simpl. split; [done|]. repeat constructor; simpl; auto. }
  rewrite (UpdateNotifications_fetched _ _ _ Hq). unfold cacheOf, finalOf at 1, eventsOf at 1.
  simpl. set (ns := fetched ecosystemID users).
  set (k := LastMessagesKey ecosystemID user) in *.
  destruct (forM__inv (λ g', cache g' !! k = cache g !! k) (leavesAlone ecosystemID user)
              users (updateUser ecosystemID ns)) with (g := g) as [Hfin Hev]; [|done|].
  - intros v g' _ Hg'. destruct (decide (v = user)) as [->|Hv].
    + rewrite updateUser_unchanged by (by fold k; rewrite Hg').
      split; [done|]. repeat constructor; simpl; auto.
    + destruct (updateUser_frame ecosystemID ns v user g' Hv) as [Hc ?].
      split; [|done]. fold k in Hc. by rewrite Hc.
  - split; [done|]. constructor; [|done]. split; simpl; auto.
Qed.

(** C7: when a listed user has a non-empty cached list and an empty fresh
    state, the update of the ecosystem deletes the user's entry and hands the
    publisher the old list with every count zeroed and the roles kept; it does
    so once, and makes no other write to the entry or publish to the user. *)
Theorem UpdateNotifications_allClear ecosystemID users user old g :
  user ∈ users →
  (GetNotificationsCount ecosystemID users).2 = None →
  cache g !! LastMessagesKey ecosystemID user = Some old →
  old ≠ [] →
  newStatsOf ecosystemID users user = [] →
  cacheOf (UpdateNotifications ecosystemID users g) !! LastMessagesKey ecosystemID user = None ∧
  (RoleID <$> zeroCounts old = RoleID <$> old ∧
   EcosystemID <$> zeroCounts old = EcosystemID <$> old ∧
   Forall (λ r, RecordsCount r = 0) (zeroCounts old)) ∧
  ∃ before after,
    eventsOf (UpdateNotifications ecosystemID users g) =
      before ++ [EvGet (LastMessagesKey ecosystemID user);
                 EvDelete (LastMessagesKey ecosystemID user)]
             ++ sendTrace user (zeroCounts old) ++ after ∧
    EvWrite user (Marshal (zeroCounts old)).1 ∈ sendTrace user (zeroCounts old) ∧
    Forall (λ e, ¬ writesKey (LastMessagesKey ecosystemID user) e ∧ ¬ publishesTo user e)
           (before ++ after).
Proof.
  intros Hin Hq Hold Hne Hnew.
  rewrite (UpdateNotifications_fetched _ _ _ Hq). unfold cacheOf, finalOf at 1, eventsOf at 1.
  simpl. set (ns := fetched ecosystemID users).
  set (k := LastMessagesKey ecosystemID user) in *.
  apply list_elem_of_split_l in Hin as (l1 & l2 & -> & Hl1).
  rewrite forM__app, forM__cons. unfold finalOf at 1 2, eventsOf at 1 3. simpl.
  destruct (forM__inv (λ g', cache g' !! k = Some old) (leavesAlone ecosystemID user)
              l1 (updateUser ecosystemID ns)) with (g := g) as [Hfin1 Hev1]; [|done|].
  { intros v g' Hv Hg'. assert (v ≠ user) as Hvu by (by intros ->).
    destruct (updateUser_frame ecosystemID ns v user g' Hvu) as [Hc ?].
    split; [|done]. fold k in Hc. by rewrite Hc. }
  set (g1 := finalOf (forM_ l1 (updateUser ecosystemID ns) g)) in *.
  rewrite (updateUser_allClear ecosystemID ns user old g1 Hnew Hfin1 Hne).
  unfold finalOf at 2 3, eventsOf at 2. simpl. fold k.
  destruct (forM__inv (λ g', cache g' !! k = None) (leavesAlone ecosystemID user)
              l2 (updateUser ecosystemID ns)
              (λ x g' _ Hg', updateUser_keeps_absent ecosystemID ns x user g' Hnew Hg')
              (withCache g1 (delete k (cache g1))))
    as [Hfin2 Hev2].
  { rewrite cache_withCache. apply lookup_delete_eq. }
  split_and!; [done|apply zeroCounts_roles|apply zeroCounts_ecosystems
              |apply zeroCounts_counts|].
  eexists (EvQuery ecosystemID (l1 ++ user :: l2) :: _), _. split_and!.
  - simpl. reflexivity.
  - apply sendTrace_writes.
  - simpl. constructor; [split; simpl; auto|]. by apply Forall_app.
Qed.

End Update.

(** ** Section: a failed query and the full-roster pass *)

Section FullRoster.
Context `{!Env}.
Implicit Types (g : globals).

Lemma rangeMap_elem {A} (m : gmap Z A) k v : (k, v) ∈ rangeMap m ↔ m !! k = Some v.
Proof. by rewrite rangeMap_perm, elem_of_map_to_list. Qed.

Lemma SendNotifications_run g :
  SendNotifications g = updateAll (rangeMap (systemUsers g)) g.
Proof.
  unfold SendNotifications. rewrite bind_run. unfold getGlobals. simpl.
  by destruct (updateAll _ g) as [[[] ?] ?].
Qed.

Lemma UpdateNotifications_queries ecosystemID users g :
  EvQuery ecosystemID users ∈ eventsOf (UpdateNotifications ecosystemID users g).
Proof.
  destruct (GetNotificationsCount ecosystemID users).2 as [e|] eqn:Hq.
  - rewrite (UpdateNotifications_failed _ _ _ e Hq). by left.
  - rewrite (UpdateNotifications_fetched _ _ _ Hq). by left.
Qed.

Lemma updateAll_queries entries ecosystemID users g :
  (ecosystemID, users) ∈ entries →
  EvQuery ecosystemID users ∈ eventsOf (updateAll entries g).
Proof.
  unfold updateAll. revert g. induction entries as [|[b us] entries IH]; intros g Hin.
  - by apply elem_of_nil in Hin.
  - rewrite forM__cons. unfold eventsOf at 1. simpl. apply elem_of_app.
    apply elem_of_cons in Hin as [[= <- <-]|Hin].
    + left. apply UpdateNotifications_queries.
    + right. by apply IH.
Qed.



End FullRoster.

(** ** Section: the one-shot batch cycle *)

Section Batch.
Context `{!Env}.
Implicit Types (g : globals).

Lemma sendEcosystem_frame ecosystemID users g :
  sendEcosystem ecosystemID users g =
  (tt, g, eventsOf (sendEcosystem ecosystemID users init)).
Proof.
  rewrite !sendEcosystem_run.
  by destruct (GetNotificationsCount ecosystemID users).2.
Qed.


Lemma sendEcosystem_events ecosystemID users g :
  eventsOf (sendEcosystem ecosystemID users g) =
  eventsOf (sendEcosystem ecosystemID users init).
Proof. by rewrite sendEcosystem_frame. Qed.





Lemma sendAll_events entries g e :
  e ∈ eventsOf (sendAll entries g) →
  ∃ ecosystemID users, (ecosystemID, users) ∈ entries ∧
    e ∈ eventsOf (sendEcosystem ecosystemID users init).
Proof.
  unfold sendAll. revert g. induction entries as [|[b us] entries IH]; intros g.
  - unfold eventsOf. simpl. intros He. by apply elem_of_nil in He.
  - rewrite forM__cons. unfold eventsOf at 1. simpl. rewrite elem_of_app.
    intros [He|He].
    + exists b, us. split; [by left|]. by rewrite sendEcosystem_frame in He.
    + apply IH in He as (b' & us' & Hin & He). exists b', us'. split; [by right|done].
Qed.

(** C10: every publish of the batch cycle goes to a user that is the
    recipient of a row fetched for one of the requested ecosystems, and
    carries the serialized, non-empty list aggregated for that user. *)
Theorem SendNotificationsByRequest_publishes_recipients
    (systemUsers : gmap Z (list Z)) g user payload :
  EvWrite user payload ∈ eventsOf (SendNotificationsByRequest systemUsers g) →
  ∃ ecosystemID users r recs,
    systemUsers !! ecosystemID = Some users ∧
    (GetNotificationsCount ecosystemID users).2 = None ∧
    r ∈ (GetNotificationsCount ecosystemID users).1 ∧
    recipientOf r = user ∧
    fetched ecosystemID users !! user = Some recs ∧
    recs ≠ [] ∧
    payload = (Marshal recs).1.
Proof.
  unfold SendNotificationsByRequest. intros He.
  apply sendAll_events in He as (b & us & Hin & He).
  apply rangeMap_elem in Hin. rewrite sendEcosystem_run in He.
  destruct (GetNotificationsCount b us).2 as [err|] eqn:Hq; unfold eventsOf in He; simpl in He.
  { rewrite !elem_of_cons, elem_of_nil in He. by destruct He as [|[|]]. }
  apply elem_of_cons in He as [[=]|He].
  apply list_elem_of_join in He as (t & He & Ht).
  apply list_elem_of_fmap in Ht as ([u n] & -> & Hun).
  apply sendTrace_events in He as [[= <- ->]|[t [=]]].
  apply rangeMap_elem in Hun.
  destruct (parse_lookup_Some _ _ _ _ Hun) as [Hn Hne].
  assert (∃ r, r ∈ rowsOf user (GetNotificationsCount b us).1) as [r Hr].
  { revert Hne. rewrite Hn. unfold recordsOf.
    destruct (rowsOf user _) as [|r ?]; [done|]. intros _. exists r. by left. }
  apply list_elem_of_filter in Hr as [Hrec Hr].
  exists b, us, r, n. done.
Qed.

End Batch.

(** ** The theorems at concrete inputs *)

Lemma cachedState_cacheInv : cacheInv (cache cachedState).
Proof.
  intros k l Hl. unfold cache, cachedState in Hl. simpl in Hl.
  apply lookup_insert_Some in Hl as [[_ <-]|[_ Hl]]; [done|].
  by apply lookup_singleton_Some in Hl as [_ <-].
Qed.

Lemma UpdateNotifications_cacheInv_witness :
  cacheInv (cacheOf (@UpdateNotifications exampleEnv 1 [1; 2; 3] cachedState)) ∧
  (∀ k l, EvSet k l ∈ eventsOf (@UpdateNotifications exampleEnv 1 [1; 2; 3] cachedState) →
          l ≠ []) ∧
  (∀ user, user ∈ [1; 2; 3] →
     (@GetNotificationsCount exampleEnv 1 [1; 2; 3]).2 = None →
     @newStatsOf exampleEnv 1 [1; 2; 3] user = [] →
     cacheOf (@UpdateNotifications exampleEnv 1 [1; 2; 3] cachedState)
       !! LastMessagesKey 1 user = None).
Proof.
  exact (@UpdateNotifications_cacheInv exampleEnv 1 [1; 2; 3] cachedState
           cachedState_cacheInv).
Defined.

Lemma UpdateNotifications_unchanged_user_witness :
  cacheOf (@UpdateNotifications exampleEnv 1 [1; 2; 3] cachedState) !! LastMessagesKey 1 2 =
    cache cachedState !! LastMessagesKey 1 2 ∧
  Forall (λ e, ¬ writesKey (LastMessagesKey 1 2) e ∧ ¬ publishesTo 2 e)
         (eventsOf (@UpdateNotifications exampleEnv 1 [1; 2; 3] cachedState)).
Proof.
  apply (@UpdateNotifications_unchanged_user exampleEnv 1 [1; 2; 3] 2 cachedState).
  vm_compute. reflexivity.
Defined.

Lemma UpdateNotifications_allClear_witness :
  cacheOf (@UpdateNotifications exampleEnv 2 [5] cachedState) !! LastMessagesKey 2 5 = None ∧
  (RoleID <$> @zeroCounts [NotificationRecord 2 1 3] = RoleID <$> [NotificationRecord 2 1 3] ∧
   EcosystemID <$> zeroCounts [NotificationRecord 2 1 3] =
     EcosystemID <$> [NotificationRecord 2 1 3] ∧
   Forall (λ r, RecordsCount r = 0) (zeroCounts [NotificationRecord 2 1 3])) ∧
  ∃ before after,
    eventsOf (@UpdateNotifications exampleEnv 2 [5] cachedState) =
      before ++ [EvGet (LastMessagesKey 2 5); EvDelete (LastMessagesKey 2 5)]
             ++ @sendTrace exampleEnv 5 (zeroCounts [NotificationRecord 2 1 3]) ++ after ∧
    EvWrite 5 (@Marshal exampleEnv (zeroCounts [NotificationRecord 2 1 3])).1
      ∈ @sendTrace exampleEnv 5 (zeroCounts [NotificationRecord 2 1 3]) ∧
    Forall (λ e, ¬ writesKey (LastMessagesKey 2 5) e ∧ ¬ publishesTo 5 e) (before ++ after).
Proof.
  apply (@UpdateNotifications_allClear exampleEnv 2 [5] 5 [NotificationRecord 2 1 3]
           cachedState).
  - by left.
  - reflexivity.
  - vm_compute. reflexivity.
  - discriminate.
  - reflexivity.
Defined.


Lemma SendNotificationsByRequest_publishes_recipients_witness :
  ∃ ecosystemID users r recs,
    ({[ 1 := [1; 2] ]} : gmap Z (list Z)) !! ecosystemID = Some users ∧
    (@GetNotificationsCount exampleEnv ecosystemID users).2 = None ∧
    r ∈ (@GetNotificationsCount exampleEnv ecosystemID users).1 ∧
    @recipientOf exampleEnv r = 1 ∧
    @fetched exampleEnv ecosystemID users !! 1 = Some recs ∧
    recs ≠ [] ∧
    (jsonMarshal [NotificationRecord 1 1 2; NotificationRecord 1 2 3]).1 =
      (@Marshal exampleEnv recs).1.
Proof.
  apply (@SendNotificationsByRequest_publishes_recipients exampleEnv
           {[ 1 := [1; 2] ]} init 1
           (jsonMarshal [NotificationRecord 1 1 2; NotificationRecord 1 2 3]).1).
  vm_compute. repeat constructor.
Defined.


(** The run behind C4: the serializer fails and returns no bytes, the error
    is logged, and the publisher is called with the empty payload. *)
Example marshal_error_run :
  @sendUserStats failingMarshalEnv 5 [NotificationRecord 2 1 3] init =
  (tt, init, [EvLog JSONMarshallError; EvWrite 5 EmptyString]).
Proof. reflexivity. Qed.

(** ** The examples of the specification *)

Example cardinality_change :
  statsChanged [NotificationRecord 1 1 5] [] = true ∧
  statsChanged [] [NotificationRecord 1 1 1] = true.
Proof. done. Qed.

Example count_change :
  statsChanged [NotificationRecord 1 1 5] [NotificationRecord 1 1 6] = true.
Proof. done. Qed.

Example new_role :
  statsChanged [NotificationRecord 1 1 5]
               [NotificationRecord 1 1 5; NotificationRecord 1 2 1] = true.
Proof. done. Qed.

Example all_clear_transition :
  @UpdateNotifications exampleEnv 2 [5] cachedState =
  (tt,
   withCache cachedState {[ LastMessagesKey 1 2 := [NotificationRecord 1 1 1] ]},
   [EvQuery 2 [5]; EvGet (LastMessagesKey 2 5); EvDelete (LastMessagesKey 2 5);
    EvWrite 5 (jsonMarshal [NotificationRecord 2 1 0]).1]).
Proof. vm_compute. reflexivity. Qed.

Example isolation_across_ecosystems :
  eventsOf (@updateAll exampleEnv [(3, [9]); (2, [5])] cachedState) =
  [EvQuery 3 [9]; EvLog DBError;
   EvQuery 2 [5]; EvGet (LastMessagesKey 2 5); EvDelete (LastMessagesKey 2 5);
   EvWrite 5 (jsonMarshal [NotificationRecord 2 1 0]).1].
Proof. vm_compute. reflexivity. Qed.

(** ** Section: the cache and the roster *)

Section Registry.
Implicit Types (g : globals).

Lemma withCache_same g : withCache g (cache g) = g.
Proof. by destruct g as [? []]. Qed.

Lemma lm_get_run system user g :
  lm_get system user g =
  (match cache g !! LastMessagesKey system user with
   | Some res => (res, true)
   | None => ([], false)
   end, g, [EvGet (LastMessagesKey system user)]).
Proof.
  unfold lm_get, cache. run_M.
  by destruct (stats (lastMessagesStats g) !! _).
Qed.

Lemma lm_set_run system user newStats g :
  lm_set system user newStats g =
  (tt, withCache g (<[LastMessagesKey system user := newStats]> (cache g)),
   [EvSet (LastMessagesKey system user) newStats]).
Proof. done. Qed.

Lemma lm_delete_run system user g :
  lm_delete system user g =
  (tt, withCache g (delete (LastMessagesKey system user) (cache g)),
   [EvDelete (LastMessagesKey system user)]).
Proof. done. Qed.

(** X1: a [get] after a [set] returns the stored list and [true] for the key
    that was set, and what it returned before for every other key; a second
    [set] on a key replaces the first; [set] leaves the roster alone. *)
Theorem lm_set_get system user newStats system' user' g :
  resultOf ((lm_set system user newStats ;; lm_get system' user') g) =
    (if decide (system' = system ∧ user' = user) then (newStats, true)
     else resultOf (lm_get system' user' g)) ∧
  (∀ l, finalOf ((lm_set system user l ;; lm_set system user newStats) g) =
        finalOf (lm_set system user newStats g)) ∧
  systemUsers (finalOf (lm_set system user newStats g)) = systemUsers g.
Proof.
  split_and!.
  - rewrite bind_run, lm_set_run, !lm_get_run. unfold resultOf. simpl.
    rewrite cache_withCache. case_decide as Hk.
    + destruct Hk as [-> ->]. by rewrite lookup_insert_eq.
    + rewrite lookup_insert_ne by (intros [= <- <-]; tauto). done.
  - intros l. rewrite bind_run, !lm_set_run. unfold finalOf. simpl.
    rewrite cache_withCache. by rewrite insert_insert_eq.
  - done.
Qed.

(** X2: a [get] after a [delete] returns the nil slice and [false] for the
    deleted key and what it returned before for every other key; deleting
    a key that has no entry changes nothing; [delete] undoes a [set] on a key
    that had no entry. *)
Theorem lm_delete_get system user system' user' g :
  resultOf ((lm_delete system user ;; lm_get system' user') g) =
    (if decide (system' = system ∧ user' = user) then ([], false)
     else resultOf (lm_get system' user' g)) ∧
  (cache g !! LastMessagesKey system user = None →
   finalOf (lm_delete system user g) = g ∧
   ∀ l, finalOf ((lm_set system user l ;; lm_delete system user) g) = g).
Proof.
  split.
  - rewrite bind_run, lm_delete_run, !lm_get_run. unfold resultOf. simpl.
    rewrite cache_withCache. case_decide as Hk.
    + destruct Hk as [-> ->]. by rewrite lookup_delete_eq.
    + rewrite lookup_delete_ne by (intros [= <- <-]; tauto). done.
  - intros Hnone. split.
    + rewrite lm_delete_run. unfold finalOf. simpl. rewrite delete_id by done.
      apply withCache_same.
    + intros l. rewrite bind_run, lm_set_run, lm_delete_run. unfold finalOf. simpl.
      rewrite cache_withCache, delete_insert_eq, delete_id by done.
      by destruct g as [? []].
Qed.

Lemma lm_delete_get_witness :
  finalOf (lm_delete 7 1 init) = init ∧
  ∀ l, finalOf ((lm_set 7 1 l ;; lm_delete 7 1) init) = init.
Proof.
  exact (proj2 (lm_delete_get 7 1 7 1 init) eq_refl).
Defined.

Lemma AddUser_run userID systemID g :
  AddUser userID systemID g =
  (tt,
   Globals (<[systemID := default [] (systemUsers g !! systemID) ++ [userID]]> (systemUsers g))
           (lastMessagesStats g),
   []).
Proof.
  unfold AddUser. run_M. by destruct (systemUsers g !! systemID).
Qed.

(** X3: registering the users of a list one after the other appends them, in
    that order and with their repetitions, to the list of the ecosystem (an
    ecosystem not yet on the roster starts from the empty list); the lists of
    the other ecosystems and the cache stay as they are, and nothing is
    queried, logged or published. *)
Theorem AddUser_many (us : list Z) systemID g :
  (∀ s, systemUsers (finalOf (forM_ us (λ userID, AddUser userID systemID) g)) !! s =
        if decide (s = systemID ∧ us ≠ [])
        then Some (default [] (systemUsers g !! systemID) ++ us)
        else systemUsers g !! s) ∧
  lastMessagesStats (finalOf (forM_ us (λ userID, AddUser userID systemID) g)) =
    lastMessagesStats g ∧
  eventsOf (forM_ us (λ userID, AddUser userID systemID) g) = [].
Proof.
  revert g. induction us as [|u us IH]; intros g.
  - split_and!; [|done..]. intros s. case_decide as H; [|done]. by destruct H.
  - rewrite forM__cons, AddUser_run. unfold finalOf at 2 4 5, eventsOf at 2. simpl.
    destruct (IH (Globals (<[systemID := default [] (systemUsers g !! systemID) ++ [u]]>
                             (systemUsers g)) (lastMessagesStats g)))
      as (Hl & Hc & He). simpl in *.
    unfold finalOf at 1 2, eventsOf at 1. simpl.
    split_and!; [|done..]. intros s. rewrite Hl, lookup_insert_eq. simpl.
    destruct (decide (s = systemID)) as [->|Hs].
    + rewrite (decide_True (P := systemID = systemID ∧ u :: us ≠ [])) by (split; done).
      destruct us as [|u' us]; simpl.
      * rewrite decide_False by tauto. by rewrite lookup_insert_eq.
      * rewrite decide_True by (split; done). by rewrite <-app_assoc.
    + rewrite !decide_False by tauto. by rewrite lookup_insert_ne.
Qed.

End Registry.

(** ** Section: what the diff can and cannot see *)

Section Diff.
Implicit Types (old new : list notificationRecord) (n : notificationRecord).

Lemma not_triggers_match old n :
  ¬ triggers old n →
  ∃ o, o ∈ old ∧ RoleID o = RoleID n ∧
       ∀ o', o' ∈ old → RoleID o' = RoleID n → RecordsCount o' = RecordsCount n.
Proof.
  intros Hn.
  destruct (decide (Exists (λ o, RoleID o = RoleID n) old)) as [Hex|Hex].
  - apply Exists_exists in Hex as (o & Ho & Hr). exists o. split_and!; [done..|].
    intros o' Ho' Hr'.
    destruct (decide (RecordsCount o' = RecordsCount n)) as [|Hc]; [done|].
    exfalso. apply Hn. right. by exists o'.
  - exfalso. apply Hn. left. intros o Ho Hr. apply Hex, Exists_exists. by exists o.
Qed.

(** X4: when the roles of [new] are pairwise distinct and [statsChanged]
    reports no change, the two lists hold the same (role, count) pairs, up
    to order: with distinct roles the diff misses nothing. *)
Theorem statsChanged_false_same_pairs old new :
  NoDup (RoleID <$> new) →
  statsChanged old new = false →
  roleCount <$> old ≡ₚ roleCount <$> new.
Proof.
  intros Hnd Hsame. apply statsChanged_false in Hsame as [Hlen Hno].
  symmetry. apply submseteq_length_Permutation; [|by rewrite !length_fmap, Hlen].
  apply NoDup_submseteq.
  - apply (NoDup_fmap_1 fst). by rewrite <-list_fmap_compose.
  - intros p Hp. apply list_elem_of_fmap in Hp as (n & -> & Hn).
    destruct (not_triggers_match old n (Hno n Hn)) as (o & Ho & Hr & Hc).
    apply list_elem_of_fmap. exists o. split; [|done].
    unfold roleCount. by rewrite Hr, (Hc o Ho Hr).
Qed.

Lemma statsChanged_false_same_pairs_witness :
  roleCount <$> [NotificationRecord 1 2 1; NotificationRecord 1 1 5] ≡ₚ
  roleCount <$> [NotificationRecord 1 1 5; NotificationRecord 1 2 1].
Proof.
  apply statsChanged_false_same_pairs; [|reflexivity].
  simpl. apply NoDup_cons. split; [|apply NoDup_singleton].
  intros H. apply list_elem_of_singleton in H. discriminate H.
Defined.

Lemma scanSource_roleCount n n' old old' b :
  roleCount n = roleCount n' →
  roleCount <$> old = roleCount <$> old' →
  scanSource n old b = scanSource n' old' b.
Proof.
  intros [= Hr Hc]. revert old' b.
  induction old as [|o old IH]; intros [|o' old'] b; try done.
  intros [= Hor Hoc Hrest]. simpl. rewrite Hr, Hc, Hor, Hoc.
  repeat case_bool_decide; auto.
Qed.

Lemma scanNew_roleCount old old' new new' :
  roleCount <$> old = roleCount <$> old' →
  roleCount <$> new = roleCount <$> new' →
  scanNew old new = scanNew old' new'.
Proof.
  intros Hold. revert new'.
  induction new as [|n new IH]; intros [|n' new']; try done.
  intros [= Hr Hc Hrest]. simpl.
  rewrite (scanSource_roleCount n n' old old') by (done || by unfold roleCount; f_equal).
  rewrite (IH new') by done. done.
Qed.

(** X5: [statsChanged] looks at the roles and the counts only: lists that
    agree on their (role, count) pairs, in order, give the same answer,
    whatever ecosystem their records name. *)
Theorem statsChanged_roleCount old old' new new' :
  roleCount <$> old = roleCount <$> old' →
  roleCount <$> new = roleCount <$> new' →
  statsChanged old new = statsChanged old' new'.
Proof.
  intros Hold Hnew. unfold statsChanged.
  assert (length old = length old') as ->
    by (by rewrite <-(length_fmap roleCount old), Hold, length_fmap).
  assert (length new = length new') as ->
    by (by rewrite <-(length_fmap roleCount new), Hnew, length_fmap).
  by rewrite (scanNew_roleCount old old' new new').
Qed.

Lemma statsChanged_roleCount_witness :
  statsChanged [NotificationRecord 1 1 5] [NotificationRecord 1 1 6] =
  statsChanged [NotificationRecord 8 1 5] [NotificationRecord 9 1 6].
Proof.
  exact (statsChanged_roleCount [NotificationRecord 1 1 5] [NotificationRecord 8 1 5]
           [NotificationRecord 1 1 6] [NotificationRecord 9 1 6] eq_refl eq_refl).
Defined.

(** X6: a fresh list in which one role occurs with two different counts is
    reported as changed against every cached list, itself included. *)
Theorem statsChanged_conflict old new a b :
  a ∈ new → b ∈ new →
  RoleID a = RoleID b → RecordsCount a ≠ RecordsCount b →
  statsChanged old new = true.
Proof.
  intros Ha Hb Hr Hc. apply not_false_iff_true. intros Hsame.
  apply statsChanged_false in Hsame as [_ Hno].
  destruct (not_triggers_match old a (Hno a Ha)) as (o & Ho & Hor & Hoc).
  destruct (not_triggers_match old b (Hno b Hb)) as (_ & _ & _ & Hoc').
  apply Hc. rewrite <-(Hoc o Ho Hor). apply Hoc'; [done|congruence].
Qed.

Lemma statsChanged_conflict_witness :
  statsChanged [NotificationRecord 1 1 2; NotificationRecord 1 1 3]
               [NotificationRecord 1 1 2; NotificationRecord 1 1 3] = true.
Proof.
  apply (statsChanged_conflict _ _ (NotificationRecord 1 1 2) (NotificationRecord 1 1 3)).
  - by left.
  - right. by left.
  - reflexivity.
  - discriminate.
Defined.

End Diff.

(** With a repeated role in [new] the diff can miss a role that went away. *)
Example statsChanged_misses_dropped_role :
  statsChanged [NotificationRecord 1 1 1; NotificationRecord 1 2 2]
               [NotificationRecord 1 1 1; NotificationRecord 1 1 1] = false.
Proof. reflexivity. Qed.

(** ** Section: more on the aggregator *)

Section AggregatorMore.
Context `{!Env}.

Lemma recordsHeld_insert m recipientID l :
  recordsHeld (<[recipientID := l]> m) =
  (length l + recordsHeld (delete recipientID m))%nat.
Proof.
  unfold recordsHeld. rewrite <-insert_delete_eq.
  rewrite map_to_list_insert by apply lookup_delete_eq. done.
Qed.

Lemma recordsHeld_lookup m recipientID l :
  m !! recipientID = Some l →
  recordsHeld m = (length l + recordsHeld (delete recipientID m))%nat.
Proof.
  intros Hl. unfold recordsHeld. by rewrite <-(map_to_list_delete m recipientID l Hl).
Qed.

Lemma parseRow_held systemID m r :
  recordsHeld (parseRow systemID m r) = S (recordsHeld m).
Proof.
  unfold parseRow. fold (recipientOf r).
  destruct (m !! recipientOf r) as [l|] eqn:E; rewrite recordsHeld_insert.
  - rewrite (recordsHeld_lookup m _ l E), length_app. simpl. lia.
  - by rewrite delete_id.
Qed.

Lemma parse_fold_held systemID rows m :
  recordsHeld (fold_left (parseRow systemID) rows m) = (length rows + recordsHeld m)%nat.
Proof.
  revert m. induction rows as [|r rows IH]; intros m; simpl; [done|].
  rewrite IH, parseRow_held. lia.
Qed.

(** X7: the aggregated map has an entry exactly for the recipients that occur
    in the rows; no entry is empty; every record names the ecosystem the
    function was called with; and the lists together hold as many records as
    there are rows, so no row is dropped or counted twice. *)
Theorem parseRecipientNotification_entries rows systemID :
  (∀ recipientID,
     is_Some (parseRecipientNotification rows systemID !! recipientID) ↔
     recipientID ∈ recipientOf <$> rows) ∧
  (∀ recipientID recs,
     parseRecipientNotification rows systemID !! recipientID = Some recs →
     recs ≠ [] ∧ Forall (λ r, EcosystemID r = systemID) recs) ∧
  recordsHeld (parseRecipientNotification rows systemID) = length rows.
Proof.
  split_and!.
  - intros recipientID. rewrite parse_lookup. unfold recordsOf, rowsOf.
    rewrite list_elem_of_fmap. split.
    + destruct (filter _ rows) as [|r l] eqn:E; [by intros [? [=]]|]. intros _.
      assert (r ∈ filter (λ r, recipientOf r = recipientID) rows) as Hr
        by (rewrite E; by left).
      apply list_elem_of_filter in Hr as [Hrec Hr]. by exists r.
    + intros (r & -> & Hr).
      assert (r ∈ filter (λ r', recipientOf r' = recipientOf r) rows) as Hf
        by (by apply list_elem_of_filter).
      destruct (filter _ rows); [by apply elem_of_nil in Hf|]. simpl. eauto.
  - intros recipientID recs Hrecs. apply parse_lookup_Some in Hrecs as [-> Hne].
    split; [done|]. unfold recordsOf. apply Forall_fmap, Forall_forall. done.
  - unfold parseRecipientNotification. rewrite parse_fold_held.
    unfold recordsHeld. rewrite map_to_list_empty. simpl. lia.
Qed.

Lemma recordsOf_app rows1 rows2 systemID recipientID :
  recordsOf (rows1 ++ rows2) systemID recipientID =
  recordsOf rows1 systemID recipientID ++ recordsOf rows2 systemID recipientID.
Proof. unfold recordsOf, rowsOf. by rewrite filter_app, fmap_app. Qed.

(** X8: aggregating two batches of rows in one call gives every recipient
    the records of the first batch followed by those of the second. *)
Theorem parseRecipientNotification_app rows1 rows2 systemID recipientID :
  default [] (parseRecipientNotification (rows1 ++ rows2) systemID !! recipientID) =
  default [] (parseRecipientNotification rows1 systemID !! recipientID) ++
  default [] (parseRecipientNotification rows2 systemID !! recipientID).
Proof.
  rewrite !parse_lookup, recordsOf_app.
  destruct (recordsOf rows1 systemID recipientID);
    destruct (recordsOf rows2 systemID recipientID); simpl; by rewrite ?app_nil_r.
Qed.

End AggregatorMore.

(** ** Section: the publisher boundary *)

Section Publisher.
Context `{!Env}.

(** X9: [sendUserStats] calls the publisher exactly once, with the bytes the
    serializer returned, whatever the outcome; it leaves the state alone and
    does not touch the cache or the database; a failed delivery is only
    logged: [IOError] exactly when the publisher returned an error,
    [CentrifugoError] exactly when it returned [ok = false]. *)
Theorem sendUserStats_one_write user l g :
  finalOf (sendUserStats user l g) = g ∧
  publishesOf (eventsOf (sendUserStats user l g)) = [(user, (Marshal l).1)] ∧
  keysOf (eventsOf (sendUserStats user l g)) = [] ∧
  queriesOf (eventsOf (sendUserStats user l g)) = [] ∧
  (EvLog IOError ∈ eventsOf (sendUserStats user l g) ↔
     (Write user (Marshal l).1).2 ≠ None) ∧
  (EvLog CentrifugoError ∈ eventsOf (sendUserStats user l g) ↔
     (Write user (Marshal l).1).1 = false).
Proof.
  rewrite sendUserStats_run. unfold sendTrace, sendUserStats, finalOf, eventsOf. simpl.
  destruct (Marshal l) as [rawStats [err|]]; simpl;
    destruct (Write user rawStats) as [[|] [e'|]]; run_M;
    rewrite ?elem_of_cons, ?elem_of_nil; split_and!; try done;
    intuition congruence.
Qed.

End Publisher.

(** ** Section: the reach of an update *)

Section Reach.
Context `{!Env}.
Implicit Types (g : globals) (ns : gmap Z (list notificationRecord)).

Lemma omap_None {A B} (f : A → option B) (t : list A) :
  Forall (λ e, f e = None) t → omap f t = [].
Proof. induction 1 as [|e t He _ IH]; simpl; [done|]. by rewrite He. Qed.

Lemma sendTrace_withinUsers ecosystemID users user l :
  user ∈ users → Forall (withinUsers ecosystemID users) (sendTrace user l).
Proof.
  intros Hu. apply Forall_forall. intros e He.
  by apply sendTrace_events in He as [->|[t ->]].
Qed.

Lemma updateUser_withinUsers ecosystemID users ns user g :
  user ∈ users →
  Forall (withinUsers ecosystemID users) (eventsOf (updateUser ecosystemID ns user g)).
Proof.
  intros Hu. rewrite updateUser_run. simpl.
  destruct (statsChanged _ _); [case_bool_decide|]; unfold eventsOf; simpl;
    repeat (constructor; [by simpl|]);
    by (apply sendTrace_withinUsers || constructor).
Qed.

Lemma updateUser_roster ecosystemID ns user g :
  systemUsers (finalOf (updateUser ecosystemID ns user g)) = systemUsers g.
Proof.
  rewrite updateUser_run. simpl.
  by destruct (statsChanged _ _); [case_bool_decide|].
Qed.

Lemma updateUser_other_key ecosystemID ns user g k :
  k ≠ LastMessagesKey ecosystemID user →
  cache (finalOf (updateUser ecosystemID ns user g)) !! k = cache g !! k.
Proof.
  intros Hk. rewrite updateUser_run. simpl.
  destruct (statsChanged _ _); [case_bool_decide|]; unfold finalOf; simpl;
    rewrite ?cache_withCache; [by rewrite lookup_delete_ne|by rewrite lookup_insert_ne|done].
Qed.

(** What the loop of an update keeps and emits. *)
Lemma updateLoop_reach ecosystemID users ns (l : list Z) g :
  l ⊆ users →
  (systemUsers (finalOf (forM_ l (updateUser ecosystemID ns) g)) = systemUsers g ∧
   ∀ k, (system k ≠ ecosystemID ∨ user k ∉ users) →
        cache (finalOf (forM_ l (updateUser ecosystemID ns) g)) !! k = cache g !! k) ∧
  Forall (withinUsers ecosystemID users) (eventsOf (forM_ l (updateUser ecosystemID ns) g)).
Proof.
  intros Hl.
  apply (forM__inv
           (λ g', systemUsers g' = systemUsers g ∧
                  ∀ k, (system k ≠ ecosystemID ∨ user k ∉ users) →
                       cache g' !! k = cache g !! k)
           (withinUsers ecosystemID users)); [|done].
  intros v g' Hv [Hr Hc]. split; [split|].
  - by rewrite updateUser_roster.
  - intros k Hk. rewrite updateUser_other_key; [by apply Hc|].
    intros ->. simpl in Hk. destruct Hk as [|Hk]; [done|]. by apply Hk, Hl.
  - by apply updateUser_withinUsers, Hl.
Qed.

Lemma UpdateNotifications_reach ecosystemID users g :
  (systemUsers (finalOf (UpdateNotifications ecosystemID users g)) = systemUsers g ∧
   ∀ k, (system k ≠ ecosystemID ∨ user k ∉ users) →
        cacheOf (UpdateNotifications ecosystemID users g) !! k = cache g !! k) ∧
  ∃ t, eventsOf (UpdateNotifications ecosystemID users g) = EvQuery ecosystemID users :: t ∧
       Forall (withinUsers ecosystemID users) t.
Proof.
  destruct (GetNotificationsCount ecosystemID users).2 as [e|] eqn:Hq.
  - rewrite (UpdateNotifications_failed _ _ _ e Hq). split; [done|].
    eexists. split; [reflexivity|]. by repeat constructor.
  - rewrite (UpdateNotifications_fetched _ _ _ Hq).
    destruct (updateLoop_reach ecosystemID users (fetched ecosystemID users) users g)
      as [Hst Hev]; [done|].
    split; [done|]. eexists. split; [reflexivity|]. done.
Qed.

(** X10: an update of one ecosystem issues exactly one query; it reads and
    writes the cache only under keys of that ecosystem and of the listed
    users, and publishes only to listed users; every other cache entry and
    the roster are as before; so with an empty user list it touches no cache
    entry and publishes nothing. *)
Theorem UpdateNotifications_footprint ecosystemID users g :
  queriesOf (eventsOf (UpdateNotifications ecosystemID users g)) = [(ecosystemID, users)] ∧
  Forall (λ k, system k = ecosystemID ∧ user k ∈ users)
         (keysOf (eventsOf (UpdateNotifications ecosystemID users g))) ∧
  Forall (λ p, p.1 ∈ users) (publishesOf (eventsOf (UpdateNotifications ecosystemID users g))) ∧
  (∀ k, (system k ≠ ecosystemID ∨ user k ∉ users) →
        cacheOf (UpdateNotifications ecosystemID users g) !! k = cache g !! k) ∧
  systemUsers (finalOf (UpdateNotifications ecosystemID users g)) = systemUsers g.
Proof.
  destruct (UpdateNotifications_reach ecosystemID users g) as [[Hr Hc] (t & -> & Ht)].
  rewrite Forall_forall in Ht. split_and!; [| | |done..].
  - unfold queriesOf. simpl. f_equal. apply omap_None, Forall_forall.
    intros e He. specialize (Ht e He). by destruct e.
  - apply Forall_forall. intros k Hk. unfold keysOf in Hk. simpl in Hk.
    apply list_elem_of_omap in Hk as (e & He & Hek).
    specialize (Ht e He). by destruct e; simplify_eq.
  - apply Forall_forall. intros p Hp. unfold publishesOf in Hp. simpl in Hp.
    apply list_elem_of_omap in Hp as (e & He & Hep).
    specialize (Ht e He). by destruct e; simplify_eq.
Qed.

End Reach.

(** ** Section: a changed user, and a second run *)

Section Changed.
Context `{!Env}.
Implicit Types (g : globals) (ns : gmap Z (list notificationRecord)).

Lemma leavesAlone_settled ecosystemID user payload e :
  leavesAlone ecosystemID user e →
  settled (LastMessagesKey ecosystemID user) user payload e.
Proof.
  intros [Hw Hp]. destruct e; simpl in *; done.
Qed.

Lemma sendTrace_settled k user l :
  Forall (settled k user (Marshal l).1) (sendTrace user l).
Proof.
  apply Forall_forall. intros e He.
  by apply sendTrace_events in He as [->|[t ->]].
Qed.

(** A turn of the loop on a state whose entry for the user already is the
    non-empty fresh list. *)
Lemma updateUser_settled ecosystemID ns v user new g :
  ns !! user = Some new → new ≠ [] →
  cache g !! LastMessagesKey ecosystemID user = Some new →
  cache (finalOf (updateUser ecosystemID ns v g)) !! LastMessagesKey ecosystemID user =
    Some new ∧
  Forall (settled (LastMessagesKey ecosystemID user) user (Marshal new).1)
         (eventsOf (updateUser ecosystemID ns v g)).
Proof.
  intros Hns Hne Hc. destruct (decide (v = user)) as [->|Hv].
  - rewrite updateUser_run. simpl. rewrite Hns, Hc. simpl.
    destruct (statsChanged new new).
    + rewrite bool_decide_eq_false_2 by (by destruct new).
      unfold finalOf, eventsOf. simpl. rewrite cache_withCache.
      split; [apply lookup_insert_eq|].
      do 2 (constructor; [done|]). apply sendTrace_settled.
    + split; [done|]. by repeat constructor.
  - destruct (updateUser_frame ecosystemID ns v user g Hv) as [-> Hev].
    split; [done|]. eapply Forall_impl; [exact Hev|].
    intros e. apply leavesAlone_settled.
Qed.

(** X11: when the diff reports a change for a listed user and the fresh
    state is not empty, the update stores the fresh list under the user's
    key and publishes it: afterwards the entry is the fresh list, the events
    hold that [set] and that publish, the entry is never deleted, and no other
    payload is published to the user. *)
Theorem UpdateNotifications_changed ecosystemID users user new g :
  user ∈ users →
  (GetNotificationsCount ecosystemID users).2 = None →
  fetched ecosystemID users !! user = Some new →
  statsChanged (default [] (cache g !! LastMessagesKey ecosystemID user)) new = true →
  cacheOf (UpdateNotifications ecosystemID users g) !! LastMessagesKey ecosystemID user =
    Some new ∧
  EvSet (LastMessagesKey ecosystemID user) new
    ∈ eventsOf (UpdateNotifications ecosystemID users g) ∧
  (user, (Marshal new).1) ∈ publishesOf (eventsOf (UpdateNotifications ecosystemID users g)) ∧
  Forall (settled (LastMessagesKey ecosystemID user) user (Marshal new).1)
         (eventsOf (UpdateNotifications ecosystemID users g)).
Proof.
  intros Hin Hq Hns Hch.
  destruct (parse_lookup_Some _ _ _ _ Hns) as [_ Hne].
  rewrite (UpdateNotifications_fetched _ _ _ Hq). unfold cacheOf, finalOf at 1, eventsOf at 1 3 5.
  simpl. set (ns := fetched ecosystemID users) in *.
  set (k := LastMessagesKey ecosystemID user) in *.
  apply list_elem_of_split_l in Hin as (l1 & l2 & -> & Hl1).
  rewrite forM__app, forM__cons. unfold finalOf at 1 2, eventsOf at 1 3. simpl.
  destruct (forM__inv (λ g', cache g' !! k = cache g !! k) (leavesAlone ecosystemID user)
              l1 (updateUser ecosystemID ns)) with (g := g) as [Hfin1 Hev1]; [|done|].
  { intros v g' Hv Hg'. assert (v ≠ user) as Hvu by (by intros ->).
    destruct (updateUser_frame ecosystemID ns v user g' Hvu) as [Hc ?].
    split; [|done]. fold k in Hc. by rewrite Hc. }
  set (g1 := finalOf (forM_ l1 (updateUser ecosystemID ns) g)) in *.
  assert (updateUser ecosystemID ns user g1 =
          (tt, withCache g1 (<[k := new]> (cache g1)),
           EvGet k :: EvSet k new :: sendTrace user new)) as Hturn.
  { rewrite updateUser_run. simpl. fold k. rewrite Hfin1, Hns. simpl. rewrite Hch.
    by rewrite bool_decide_eq_false_2 by (by destruct new). }
  rewrite Hturn. unfold finalOf at 2 3, eventsOf at 2. simpl.
  destruct (forM__inv (λ g', cache g' !! k = Some new)
              (settled k user (Marshal new).1)
              l2 (updateUser ecosystemID ns)
              (λ v g' _ Hg', updateUser_settled ecosystemID ns v user new g' Hns Hne Hg')
              (withCache g1 (<[k := new]> (cache g1))))
    as [Hfin2 Hev2].
  { rewrite cache_withCache. apply lookup_insert_eq. }
  split_and!.
  - done.
  - right. apply elem_of_app. right. right. by left.
  - unfold publishesOf. apply list_elem_of_omap. exists (EvWrite user (Marshal new).1).
    split; [|done]. apply elem_of_app. right. do 2 right.
    apply elem_of_app. left. apply sendTrace_writes.
  - constructor; [done|]. apply Forall_app. split.
    + eapply Forall_impl; [exact Hev1|]. intros e. apply leavesAlone_settled.
    + do 2 (constructor; [done|]). apply Forall_app. split; [|done].
      apply sendTrace_settled.
Qed.

Lemma statsChanged_same_list l : roleCountsAgree l → statsChanged l l = false.
Proof.
  intros Hag. apply statsChanged_false. split; [done|].
  intros n Hn [Ha|(o & Ho & Hr & Hc)].
  - by apply (Ha n).
  - apply Hc. by apply Hag.
Qed.

(** After a turn of the loop the diff has nothing left to report for its user. *)
Lemma updateUser_in_sync ecosystemID ns user g :
  roleCountsAgree (default [] (ns !! user)) →
  statsChanged
    (default [] (cache (finalOf (updateUser ecosystemID ns user g))
                   !! LastMessagesKey ecosystemID user))
    (default [] (ns !! user)) = false.
Proof.
  intros Hag. rewrite updateUser_run. simpl.
  destruct (statsChanged (default [] (cache g !! LastMessagesKey ecosystemID user))
                         (default [] (ns !! user))) eqn:Hch;
    [case_bool_decide as Hlen|]; unfold finalOf; simpl; rewrite ?cache_withCache.
  - rewrite lookup_delete_eq. simpl. by destruct (default [] (ns !! user)).
  - rewrite lookup_insert_eq. simpl. by apply statsChanged_same_list.
  - done.
Qed.

Lemma updateLoop_in_sync ecosystemID ns (l : list Z) user g :
  user ∈ l →
  roleCountsAgree (default [] (ns !! user)) →
  statsChanged
    (default [] (cache (finalOf (forM_ l (updateUser ecosystemID ns) g))
                   !! LastMessagesKey ecosystemID user))
    (default [] (ns !! user)) = false.
Proof.
  intros Hin Hag. apply list_elem_of_split_r in Hin as (l1 & l2 & -> & Hl2).
  rewrite forM__app, forM__cons. unfold finalOf at 1 2. simpl.
  set (g1 := finalOf (forM_ l1 (updateUser ecosystemID ns) g)).
  destruct (forM__inv
              (λ g', cache g' !! LastMessagesKey ecosystemID user =
                     cache (finalOf (updateUser ecosystemID ns user g1))
                       !! LastMessagesKey ecosystemID user)
              (leavesAlone ecosystemID user) l2 (updateUser ecosystemID ns))
    with (g := finalOf (updateUser ecosystemID ns user g1)) as [Hfin _]; [|done|].
  - intros v g' Hv Hg'. assert (v ≠ user) as Hvu by (by intros ->).
    destruct (updateUser_frame ecosystemID ns v user g' Hvu) as [Hc ?].
    split; [|done]. by rewrite Hc.
  - rewrite Hfin. by apply updateUser_in_sync.
Qed.

Lemma updateLoop_quiet ecosystemID ns (l : list Z) g :
  (∀ user, user ∈ l →
     statsChanged (default [] (cache g !! LastMessagesKey ecosystemID user))
                  (default [] (ns !! user)) = false) →
  forM_ l (updateUser ecosystemID ns) g =
  (tt, g, (λ user, EvGet (LastMessagesKey ecosystemID user)) <$> l).
Proof.
  induction l as [|u l IH]; intros Hq; [done|].
  rewrite forM__cons, updateUser_unchanged by (apply Hq; by left).
  unfold finalOf, eventsOf. simpl.
  rewrite IH by (intros v Hv; apply Hq; by right). done.
Qed.

(** X12: when no fresh list holds a role with two different counts, a second
    update of the same ecosystem and users on unchanged data changes nothing
    and publishes nothing: it issues its query, reads the entry of each
    listed user, and leaves the state as the first update left it. *)
Theorem UpdateNotifications_twice ecosystemID users g :
  (GetNotificationsCount ecosystemID users).2 = None →
  (∀ user, user ∈ users → roleCountsAgree (newStatsOf ecosystemID users user)) →
  UpdateNotifications ecosystemID users (finalOf (UpdateNotifications ecosystemID users g)) =
  (tt, finalOf (UpdateNotifications ecosystemID users g),
   EvQuery ecosystemID users ::
   ((λ user, EvGet (LastMessagesKey ecosystemID user)) <$> users)).
Proof.
  intros Hq Hag.
  assert (finalOf (UpdateNotifications ecosystemID users g) =
          finalOf (forM_ users (updateUser ecosystemID (fetched ecosystemID users)) g))
    as -> by (by rewrite (UpdateNotifications_fetched _ _ _ Hq)).
  rewrite (UpdateNotifications_fetched _ _ _ Hq).
  rewrite updateLoop_quiet; [done|].
  intros user Hu. by apply updateLoop_in_sync, Hag.
Qed.

End Changed.

(** ** Section: the cache does not depend on the delivery *)

Lemma forM__cons_final {A} (x : A) l (body : A → M unit) g :
  finalOf (forM_ (x :: l) body g) = finalOf (forM_ l body (finalOf (body x g))).
Proof. by rewrite forM__cons. Qed.

Lemma forM__cons_events {A} (x : A) l (body : A → M unit) g :
  eventsOf (forM_ (x :: l) body g) =
  eventsOf (body x g) ++ eventsOf (forM_ l body (finalOf (body x g))).
Proof. by rewrite forM__cons. Qed.

Section Delivery.
Context (E : Env).
Variable marshal : list notificationRecord → string * option error.
Variable write : Z → string → bool * option error.

Lemma updateUser_final_delivery ecosystemID ns user g :
  finalOf (@updateUser (withDelivery E marshal write) ecosystemID ns user g) =
  finalOf (@updateUser E ecosystemID ns user g).
Proof.
  rewrite !updateUser_run. simpl.
  by destruct (statsChanged _ _); [case_bool_decide|].
Qed.

Lemma updateLoop_final_delivery ecosystemID ns (l : list Z) g :
  finalOf (forM_ l (@updateUser (withDelivery E marshal write) ecosystemID ns) g) =
  finalOf (forM_ l (@updateUser E ecosystemID ns) g).
Proof.
  revert g. induction l as [|u l IH]; intros g; [done|].
  by rewrite !forM__cons_final, updateUser_final_delivery, IH.
Qed.

Lemma UpdateNotifications_final_delivery ecosystemID users g :
  finalOf (@UpdateNotifications (withDelivery E marshal write) ecosystemID users g) =
  finalOf (@UpdateNotifications E ecosystemID users g).
Proof.
  destruct (@GetNotificationsCount E ecosystemID users).2 as [e|] eqn:Hq.
  - rewrite (@UpdateNotifications_failed E _ _ _ e Hq).
    by rewrite (@UpdateNotifications_failed (withDelivery E marshal write) _ _ _ e Hq).
  - rewrite (@UpdateNotifications_fetched E _ _ _ Hq).
    rewrite (@UpdateNotifications_fetched (withDelivery E marshal write) _ _ _ Hq).
    unfold finalOf at 1 3. simpl. apply updateLoop_final_delivery.
Qed.

(** X13: the state an update or a full pass ends in does not depend on the
    serializer or on the publisher: whatever they return, error or not, the
    cache is left with the same entries. A failed delivery is not undone in
    the cache, nor does it stop the cache from being brought up to date. *)
Theorem state_independent_of_delivery g :
  (∀ ecosystemID users,
     finalOf (@UpdateNotifications (withDelivery E marshal write) ecosystemID users g) =
     finalOf (@UpdateNotifications E ecosystemID users g)) ∧
  finalOf (@SendNotifications (withDelivery E marshal write) g) =
  finalOf (@SendNotifications E g).
Proof.
  split; [intros; apply UpdateNotifications_final_delivery|].
  rewrite !SendNotifications_run. simpl.
  generalize (@rangeMap E _ (systemUsers g)). intros l. unfold updateAll.
  revert g. induction l as [|[b us] l IH]; intros g; [done|].
  by rewrite !forM__cons_final, UpdateNotifications_final_delivery, IH.
Qed.

End Delivery.

(** ** Section: whole passes *)

Section Passes.
Context `{!Env}.
Implicit Types (g : globals).

Lemma queriesOf_app t1 t2 : queriesOf (t1 ++ t2) = queriesOf t1 ++ queriesOf t2.
Proof. apply omap_app. Qed.

Lemma publishesOf_app t1 t2 : publishesOf (t1 ++ t2) = publishesOf t1 ++ publishesOf t2.
Proof. apply omap_app. Qed.

Lemma queriesOf_withinUsers ecosystemID users t :
  Forall (withinUsers ecosystemID users) t → queriesOf t = [].
Proof.
  intros Ht. apply omap_None. eapply Forall_impl; [exact Ht|]. by intros [].
Qed.

Lemma publishesOf_withinUsers ecosystemID users t :
  Forall (withinUsers ecosystemID users) t → Forall (λ p, p.1 ∈ users) (publishesOf t).
Proof.
  intros Ht. rewrite Forall_forall in Ht. apply Forall_forall. intros p Hp.
  apply list_elem_of_omap in Hp as (e & He & Hep).
  specialize (Ht e He). by destruct e; simplify_eq.
Qed.

Lemma UpdateNotifications_keeps_cacheInv ecosystemID users g :
  cacheInv (cache g) → cacheInv (cacheOf (UpdateNotifications ecosystemID users g)).
Proof.
  intros Hinv. destruct (GetNotificationsCount ecosystemID users).2 as [e|] eqn:Hq.
  - by rewrite (UpdateNotifications_failed _ _ _ e Hq).
  - rewrite (UpdateNotifications_fetched _ _ _ Hq).
    apply (forM__inv (λ g', cacheInv (cache g')) (λ e, ∀ k l, e = EvSet k l → l ≠ [])
             users (updateUser ecosystemID (fetched ecosystemID users))
             (λ x g' _ Hg', updateUser_cacheInv ecosystemID _ x g' Hg') g Hinv).
Qed.

Lemma updateAll_pass (entries : list (Z * list Z)) g :
  queriesOf (eventsOf (updateAll entries g)) = entries ∧
  systemUsers (finalOf (updateAll entries g)) = systemUsers g ∧
  (cacheInv (cache g) → cacheInv (cache (finalOf (updateAll entries g)))) ∧
  Forall (λ p, ∃ b us, (b, us) ∈ entries ∧ p.1 ∈ us)
         (publishesOf (eventsOf (updateAll entries g))).
Proof.
  unfold updateAll. revert g. induction entries as [|[b us] entries IH]; intros g.
  - by split_and!.
  - rewrite forM__cons_final, forM__cons_events.
    destruct (UpdateNotifications_reach b us g) as [[Hr _] (t & Ht & Hw)].
    destruct (IH (finalOf (UpdateNotifications b us g))) as (Hq & Hr' & Hinv & Hp).
    rewrite queriesOf_app, publishesOf_app, Hq, Ht. split_and!.
    + simpl. by rewrite (queriesOf_withinUsers b us t Hw).
    + by rewrite Hr'.
    + intros Hg. by apply Hinv, UpdateNotifications_keeps_cacheInv.
    + apply Forall_app. split.
      * eapply Forall_impl; [exact (publishesOf_withinUsers b us t Hw)|].
        intros p Hpu. exists b, us. split; [by left|done].
      * eapply Forall_impl; [exact Hp|].
        intros p (b' & us' & Hin & Hpu). exists b', us'. split; [by right|done].
Qed.

(** X14: a full pass queries every ecosystem of the roster exactly once, with
    its registered users; it leaves the roster as it is, keeps the cache free
    of empty lists, and publishes only to users registered in some
    ecosystem; on an empty roster it does nothing at all. *)
Theorem SendNotifications_pass g :
  queriesOf (eventsOf (SendNotifications g)) ≡ₚ map_to_list (systemUsers g) ∧
  systemUsers (finalOf (SendNotifications g)) = systemUsers g ∧
  (cacheInv (cache g) → cacheInv (cacheOf (SendNotifications g))) ∧
  Forall (λ p, ∃ b us, systemUsers g !! b = Some us ∧ p.1 ∈ us)
         (publishesOf (eventsOf (SendNotifications g))) ∧
  (systemUsers g = ∅ → SendNotifications g = (tt, g, [])).
Proof.
  rewrite SendNotifications_run.
  destruct (updateAll_pass (rangeMap (systemUsers g)) g) as (Hq & Hr & Hinv & Hp).
  split_and!; [|done..| |].
  - rewrite Hq. apply rangeMap_perm.
  - eapply Forall_impl; [exact Hp|].
    intros p (b & us & Hin & Hpu). exists b, us. split; [|done].
    by apply rangeMap_elem.
  - intros Hempty.
    assert (rangeMap (systemUsers g) = []) as ->; [|done].
    apply Permutation_nil_r. by rewrite rangeMap_perm, Hempty, map_to_list_empty.
Qed.

(** X15: registering a user and then running a full pass queries the user's
    ecosystem with the user at the end of its list. *)
Theorem AddUser_then_SendNotifications userID systemID g :
  (systemID, default [] (systemUsers g !! systemID) ++ [userID])
    ∈ queriesOf (eventsOf ((AddUser userID systemID ;; SendNotifications) g)).
Proof.
  rewrite bind_run, AddUser_run. unfold eventsOf. simpl.
  rewrite SendNotifications_run. simpl.
  apply list_elem_of_omap. eexists (EvQuery _ _). split; [|reflexivity].
  apply updateAll_queries, rangeMap_elem, lookup_insert_eq.
Qed.

Lemma sendEcosystem_queriesOf ecosystemID users g :
  queriesOf (eventsOf (sendEcosystem ecosystemID users g)) = [(ecosystemID, users)].
Proof.
  rewrite sendEcosystem_run.
  destruct (GetNotificationsCount ecosystemID users).2; unfold eventsOf; simpl; [done|].
  f_equal. apply omap_None, Forall_forall. intros e He.
  apply list_elem_of_join in He as (t & He & Ht).
  apply list_elem_of_fmap in Ht as ([u n] & -> & _).
  by apply sendTrace_events in He as [->|[t ->]].
Qed.

Lemma sendAll_queriesOf (entries : list (Z * list Z)) g :
  queriesOf (eventsOf (sendAll entries g)) = entries.
Proof.
  unfold sendAll. revert g. induction entries as [|[b us] entries IH]; intros g; [done|].
  by rewrite forM__cons_events, queriesOf_app, sendEcosystem_queriesOf, IH.
Qed.

Lemma sendAll_includes (entries : list (Z * list Z)) ecosystemID users g e :
  (ecosystemID, users) ∈ entries →
  e ∈ eventsOf (sendEcosystem ecosystemID users init) →
  e ∈ eventsOf (sendAll entries g).
Proof.
  unfold sendAll. revert g. induction entries as [|[b us] entries IH]; intros g Hin He.
  - by apply elem_of_nil in Hin.
  - rewrite forM__cons. unfold eventsOf at 1. simpl. apply elem_of_app.
    apply elem_of_cons in Hin as [[= <- <-]|Hin].
    + left. by rewrite sendEcosystem_events.
    + right. by apply IH.
Qed.

(** X16: the batch cycle queries every requested ecosystem exactly once, and
    for each whose query succeeds it publishes to every recipient of the
    fetched rows the serialized list aggregated for that recipient. *)
Theorem SendNotificationsByRequest_serves (systemUsers : gmap Z (list Z)) g :
  queriesOf (eventsOf (SendNotificationsByRequest systemUsers g)) ≡ₚ
    map_to_list systemUsers ∧
  (∀ ecosystemID users recipientID recs,
     systemUsers !! ecosystemID = Some users →
     (GetNotificationsCount ecosystemID users).2 = None →
     fetched ecosystemID users !! recipientID = Some recs →
     (recipientID, (Marshal recs).1)
       ∈ publishesOf (eventsOf (SendNotificationsByRequest systemUsers g))).
Proof.
  unfold SendNotificationsByRequest. split.
  - rewrite sendAll_queriesOf. apply rangeMap_perm.
  - intros b us u recs Hm Hq Hrecs.
    apply list_elem_of_omap. exists (EvWrite u (Marshal recs).1). split; [|done].
    apply (sendAll_includes _ b us); [by apply rangeMap_elem|].
    rewrite sendEcosystem_run, Hq. unfold eventsOf. simpl. right.
    apply list_elem_of_join. exists (sendTrace u recs). split; [apply sendTrace_writes|].
    apply list_elem_of_fmap. exists (u, recs). split; [done|]. by apply rangeMap_elem.
Qed.

End Passes.

(** ** The further theorems at concrete inputs *)

Lemma roleCountsAgree_NoDup (l : list notificationRecord) :
  NoDup (RoleID <$> l) → roleCountsAgree l.
Proof.
  induction l as [|x l IH]; intros Hnd a b Ha Hb Hr.
  - by apply elem_of_nil in Ha.
  - simpl in Hnd. apply NoDup_cons in Hnd as [Hx Hnd].
    apply elem_of_cons in Ha as [->|Ha]; apply elem_of_cons in Hb as [->|Hb].
    + done.
    + exfalso. apply Hx. rewrite Hr. by apply list_elem_of_fmap_2.
    + exfalso. apply Hx. rewrite <-Hr. by apply list_elem_of_fmap_2.
    + by apply IH.
Qed.

Lemma UpdateNotifications_changed_witness :
  cacheOf (@UpdateNotifications exampleEnv 1 [1; 2; 3] cachedState) !! LastMessagesKey 1 1 =
    Some [NotificationRecord 1 1 2; NotificationRecord 1 2 3] ∧
  EvSet (LastMessagesKey 1 1) [NotificationRecord 1 1 2; NotificationRecord 1 2 3]
    ∈ eventsOf (@UpdateNotifications exampleEnv 1 [1; 2; 3] cachedState) ∧
  (1, (@Marshal exampleEnv [NotificationRecord 1 1 2; NotificationRecord 1 2 3]).1)
    ∈ publishesOf (eventsOf (@UpdateNotifications exampleEnv 1 [1; 2; 3] cachedState)) ∧
  Forall (settled (LastMessagesKey 1 1) 1
            (@Marshal exampleEnv [NotificationRecord 1 1 2; NotificationRecord 1 2 3]).1)
         (eventsOf (@UpdateNotifications exampleEnv 1 [1; 2; 3] cachedState)).
Proof.
  apply (@UpdateNotifications_changed exampleEnv 1 [1; 2; 3] 1
           [NotificationRecord 1 1 2; NotificationRecord 1 2 3] cachedState).
  - by left.
  - reflexivity.
  - vm_compute. reflexivity.
  - vm_compute. reflexivity.
Defined.

Lemma UpdateNotifications_twice_witness :
  @UpdateNotifications exampleEnv 1 [1; 2; 3]
    (finalOf (@UpdateNotifications exampleEnv 1 [1; 2; 3] cachedState)) =
  (tt, finalOf (@UpdateNotifications exampleEnv 1 [1; 2; 3] cachedState),
   EvQuery 1 [1; 2; 3] :: ((λ user, EvGet (LastMessagesKey 1 user)) <$> [1; 2; 3])).
Proof.
  apply (@UpdateNotifications_twice exampleEnv 1 [1; 2; 3] cachedState).
  - reflexivity.
  - intros user Hu. apply roleCountsAgree_NoDup.
    rewrite !elem_of_cons, elem_of_nil in Hu.
    destruct Hu as [->|[->|[->|[]]]]; vm_compute.
    + apply NoDup_cons. split; [|apply NoDup_singleton].
      intros H. apply list_elem_of_singleton in H. discriminate H.
    + apply NoDup_singleton.
    + apply NoDup_nil_2.
Defined.

(** The publishes of a batch cycle over the example rows. *)
Example batch_publishes :
  publishesOf (eventsOf (@SendNotificationsByRequest exampleEnv {[ 1 := [1; 2] ]} init)) ≡ₚ
  [(1, (jsonMarshal [NotificationRecord 1 1 2; NotificationRecord 1 2 3]).1);
   (2, (jsonMarshal [NotificationRecord 1 1 1]).1)].
Proof. vm_compute. apply perm_swap. Qed.
